(** * Objective test generation ([src/objective.py])

    A shallow embedding of the class [ObjectiveTest]: the blank selector
    [identify_potential_questions], the distractor generator
    [answer_options], the candidate collection [get_question_sets] and the
    rejection sampling of [generate_test], followed by the properties the
    specification states about them.

    Conventions of the embedding.
    - A Python [str] is a list of characters with code points below 256
      ([str]): the ASCII characters and those of Latin-1.  White space and
      case folding are Python's on these code points.
    - A Python [int] is a [Z]; [len] results are converted with [Z.of_nat].
    - An exception is an explicit [Raise]; a [for] loop with [break] is
      [for_each] over a body that answers [Next] or [Break]; the [while]
      loop of [generate_test] counts its iterations against a fuel.
    - NLTK (tokenizers, tagger, chunk parser), WordNet and numpy's random
      generator are outside the repository: they are parameters. *)

From Stdlib Require Import Ascii String.
From Stdlib Require Import ZArith Bool Arith Lia List.
Import ListNotations.

Set Implicit Arguments.

(** ** Python strings *)

Module Py.

Definition str := list ascii.

(** A string literal of the source. *)
Definition lit (s : string) : str := list_ascii_of_string s.

Arguments lit : simpl never.

Definition str_eq_dec : forall a b : str, {a = b} + {a <> b} :=
  list_eq_dec ascii_dec.

Definition str_eqb (a b : str) : bool :=
  if str_eq_dec a b then true else false.

(** [len(s)] *)
Definition len (s : str) : Z := Z.of_nat (length s).

(** [c.isspace()], the white space of [strip] and [split]: TAB, LF, VT, FF,
    CR, FS, GS, RS, US, the space, NEL (U+0085) and the no-break space
    (U+00A0). *)
Definition isspace (c : ascii) : bool :=
  let n := nat_of_ascii c in
  ((9 <=? n) && (n <=? 13)) || ((28 <=? n) && (n <=? 32))
  || (n =? 133) || (n =? 160).

Fixpoint lstrip (s : str) : str :=
  match s with
  | [] => []
  | c :: s' => if isspace c then lstrip s' else s
  end.

Definition rstrip (s : str) : str := rev (lstrip (rev s)).

(** [s.strip()] *)
Definition strip (s : str) : str := lstrip (rstrip s).

(** [s.split()]: the maximal runs of characters that are not white space.
    [cur] is the run being read. *)
Fixpoint split_from (cur s : str) : list str :=
  match s with
  | [] => match cur with [] => [] | _ :: _ => [cur] end
  | c :: s' =>
      if isspace c
      then match cur with
           | [] => split_from [] s'
           | _ :: _ => cur :: split_from [] s'
           end
      else split_from (cur ++ [c]) s'
  end.

Definition split (s : str) : list str := split_from [] s.

(** [l[-2:]] *)
Definition last_two (A : Type) (l : list A) : list A :=
  skipn (length l - 2) l.

(** [s.startswith(p)] *)
Fixpoint startswith (p s : str) : bool :=
  match p, s with
  | [], _ => true
  | _ :: _, [] => false
  | a :: p', b :: s' => Ascii.eqb a b && startswith p' s'
  end.

(** [w in s] for two strings: [w] occurs in [s] as a substring. *)
Fixpoint contains (w s : str) : bool :=
  startswith w s ||
  match s with
  | [] => false
  | _ :: s' => contains w s'
  end.

(** [sep.join(l)] *)
Fixpoint join (sep : str) (l : list str) : str :=
  match l with
  | [] => []
  | x :: rest =>
      match rest with
      | [] => x
      | _ :: _ => x ++ sep ++ join sep rest
      end
  end.

(** [s * n] *)
Definition times (s : str) (n : nat) : str := concat (repeat s n).

(** [s.replace(old, new)] for a non-empty [old]: occurrences are replaced
    from the left and do not overlap.  Each step consumes at least one
    character of [s], which the fuel counts. *)
Fixpoint replace_fuel (n : nat) (old new s : str) : str :=
  match n with
  | 0 => s
  | S n' =>
      match s with
      | [] => []
      | c :: s' =>
          if startswith old s
          then new ++ replace_fuel n' old new (skipn (length old) s)
          else c :: replace_fuel n' old new s'
      end
  end.

Definition replace (old new s : str) : str :=
  replace_fuel (length s) old new s.

(** Case folding of one character under [re.IGNORECASE] on a [str] pattern:
    the capitals A-Z and the Latin-1 capitals U+00C0-U+00DE, the
    multiplication sign U+00D7 apart, fold to the letter 32 places higher;
    the other characters below 256 have no partner below 256. *)
Definition lower (c : ascii) : ascii :=
  let n := nat_of_ascii c in
  if ((65 <=? n) && (n <=? 90))
     || ((192 <=? n) && (n <=? 214))
     || ((216 <=? n) && (n <=? 222))
  then ascii_of_nat (n + 32) else c.

(** The escaped literal [p] matches at the start of [s], ignoring case. *)
Fixpoint match_ignorecase (p s : str) : bool :=
  match p, s with
  | [], _ => true
  | _ :: _, [] => false
  | a :: p', b :: s' => Ascii.eqb (lower a) (lower b) && match_ignorecase p' s'
  end.

(** [re.compile(re.escape(p), re.IGNORECASE).sub(repl, s, count=1)] for a
    replacement text without backslashes: the leftmost match of the literal
    is replaced, and [s] is returned unchanged when there is none. *)
Fixpoint sub_ignorecase_once (p repl s : str) : str :=
  if match_ignorecase p s
  then repl ++ skipn (length p) s
  else match s with
       | [] => []
       | c :: s' => c :: sub_ignorecase_once p repl s'
       end.

(** Iterating over a [str] yields its characters as one-character strings. *)
Definition chars (s : str) : list str := map (fun c => [c]) s.

(** Two strings that differ at most in the case of their letters. *)
Definition same_ignorecase (a b : str) : Prop := map lower a = map lower b.

End Py.

Import Py.

(** ** Exceptions and loops *)

Inductive exn : Type :=
| IndexError
| ValueError
| AttributeError
| UnboundLocalError.

(** The outcome of a call that may raise. *)
Inductive result (A : Type) : Type :=
| Ret (a : A)
| Raise (e : exn).

Arguments Ret {A} a.
Arguments Raise {A} e.

Definition bind (A B : Type) (m : result A) (k : A -> result B) : result B :=
  match m with
  | Ret a => k a
  | Raise e => Raise e
  end.

Notation "x <- m ;; k" := (bind m (fun x => k))
  (at level 61, m at next level, right associativity).

(** What the body of a [for] loop asks for: the next item, or [break]. *)
Inductive flow (S : Type) : Type :=
| Next (s : S)
| Break (s : S).

Arguments Next {S} s.
Arguments Break {S} s.

(** [for x in items: body], threading the variables the body assigns. *)
Fixpoint for_each (A S : Type) (body : A -> S -> result (flow S))
    (items : list A) (s : S) : result S :=
  match items with
  | [] => Ret s
  | x :: rest =>
      match body x s with
      | Raise e => Raise e
      | Ret (Break s') => Ret s'
      | Ret (Next s') => for_each body rest s'
      end
  end.

(** The outcome of a call that loops: [Pending] when the iterations allowed
    by the fuel did not bring the loop to its exit. *)
Inductive run (A : Type) : Type :=
| Done (a : A)
| Fail (e : exn)
| Pending.

Arguments Done {A} a.
Arguments Fail {A} e.
Arguments Pending {A}.

(** [l[i]] for a non-negative [i]. *)
Definition getitem (A : Type) (l : list A) (i : Z) : result A :=
  match nth_error l (Z.to_nat i) with
  | Some x => Ret x
  | None => Raise IndexError
  end.

(** ** The collaborators *)

(** A tagged token [(word, tag)]. *)
Definition tagged : Type := str * str.

(** A child of the root of a chunk tree: a tagged token left outside every
    chunk, or a chunk with its label and its tagged tokens. *)
Inductive child : Type :=
| Token (t : tagged)
| Subtree (label : str) (leaves : list tagged).

(** NLTK.  [sent_tokenize] answers [None] when it raises.  [pos_tag] takes a
    sequence of tokens.  [chunker_parse] is [nltk.RegexpParser(grammer).parse]
    for the grammar of the source,
      CHUNK: {<NN>+<IN|DT>*<NN>+} {<NN>+<IN|DT>*<NNP>+} {<NNP>+<NNS>*},
    and returns the children of the root, whose own label is S. *)
Class Annotator : Type := {
  sent_tokenize : str -> option (list str);
  word_tokenize : str -> list str;
  pos_tag : list str -> list tagged;
  chunker_parse : list tagged -> list child
}.

(** WordNet: synsets of a word for a part of speech, hypernyms and hyponyms
    of a synset, its lemmas and their names. *)
Class Hierarchy : Type := {
  synset : Type;
  wnlemma : Type;
  synsets : str -> str -> list synset;
  hypernyms : synset -> list synset;
  hyponyms : synset -> list synset;
  lemmas : synset -> list wnlemma;
  name : wnlemma -> str
}.

(** numpy's [randint(low, high)]: an integer of [low, high), or ValueError
    when the range is empty.  [raw] is what the generator supplies for this
    call. *)
Definition randint (low high raw : Z) : result Z :=
  if (high <=? low)%Z then Raise ValueError
  else Ret (low + raw mod (high - low))%Z.

(** ** The program *)

(** A question set: the dictionary with the keys Answer, Key, Similar and
    Question. *)
Record question_set : Type := {
  Answer : str;
  Key : Z;
  Similar : list str;
  Question : str
}.

(** The object: [summary] is [None] when the constructor could not read the
    corpus file and left the attribute unset. *)
Record ObjectiveTest : Type := {
  summary : option str
}.

(** *** __init__ *)


Section Program.

Context {annotator : Annotator} {hierarchy : Hierarchy}.

(** *** answer_options *)

(** The body of the loop over the hyponyms. *)
Definition similar_step (word : str) (hyponym : synset)
    (similar_words : list str) : result (flow (list str)) :=
  match lemmas hyponym with
  | [] => Raise IndexError
  | l :: _ =>
      let similar_word := replace (lit "_") (lit " ") (name l) in
      let similar_words :=
        if str_eqb similar_word word then similar_words
        else similar_words ++ [similar_word] in
      if (length similar_words =? 8)%nat then Ret (Break similar_words)
      else Ret (Next similar_words)
  end.

Definition answer_options (word : str) : result (list str) :=
  match synsets word (lit "n") with
  | [] => Ret []
  | synset0 :: _ =>
      match hypernyms synset0 with
      | [] => Raise IndexError
      | hypernym :: _ => for_each (similar_step word) (hyponyms hypernym) []
      end
  end.

(** *** identify_potential_questions *)

(** Lines 121-128: the text of every subtree labelled CHUNK.  The root, the
    first subtree visited, is labelled S and contributes nothing. *)
Definition chunk_text (leaves : list tagged) : str :=
  strip (fold_left (fun temp sub => (temp ++ fst sub) ++ lit " ") leaves []).

Definition subtree_step (noun_phrases : list str) (subtree : child)
    : list str :=
  match subtree with
  | Token _ => noun_phrases
  | Subtree label leaves =>
      if str_eqb label (lit "CHUNK")
      then noun_phrases ++ [chunk_text leaves]
      else noun_phrases
  end.

Definition collect_noun_phrases (tree : list child) : list str :=
  fold_left subtree_step tree [].

(** Lines 107-128: the candidate noun phrases of a sentence. *)
Definition noun_phrases_of (sentence : str) : list str :=
  let tokens := word_tokenize sentence in
  let pos_tokens := pos_tag tokens in
  let tree := chunker_parse pos_tokens in
  collect_noun_phrases tree.

(** Lines 133-141: the body of the loop over the noun phrases. *)
Definition phrase_step (word phrase : str) (replace_nouns : list str)
    : result (flow (list str)) :=
  match phrase with
  | [] => Raise IndexError
  | c :: _ =>
      if Ascii.eqb c "'"%char then Ret (Break replace_nouns)
      else if contains word phrase
      then Ret (Break (replace_nouns ++ last_two (split phrase)))
      else Ret (Next replace_nouns)
  end.

(** Lines 132-145: the body of the loop over the tags, which always ends in
    [break]. *)
Definition tag_step (noun_phrases : list str) (tag : tagged)
    (replace_nouns : list str) : result (flow (list str)) :=
  let word := fst tag in
  replace_nouns <- for_each (phrase_step word) noun_phrases replace_nouns ;;
  let replace_nouns :=
    if (length replace_nouns =? 0)%nat then replace_nouns ++ [word]
    else replace_nouns in
  Ret (Break replace_nouns).

(** Lines 131-145: the words to blank. *)
Definition handle_nouns (tags : list tagged) (noun_phrases : list str)
    : result (list str) :=
  for_each (tag_step noun_phrases) tags [].

(** Lines 150-155. *)
Definition shortest (replace_nouns : list str) : Z :=
  fold_left (fun val i => if (len i <? val)%Z then len i else val)
    replace_nouns 99%Z.

(** The blank marker of line 170. *)
Definition blank : str := lit "__________".

(** Line 102 hands [sentence], a [str], to the tagger, which tags the
    elements of the sequence it is given: [tags] holds one entry for each
    character of the sentence.  Line 117 tags the word tokens. *)
Definition identify_potential_questions (sentence : str)
    : result (option question_set) :=
  let tags := pos_tag (chars sentence) in
  match tags with
  | [] => Raise IndexError
  | tag0 :: _ =>
      if str_eqb (snd tag0) (lit "RB")
         || (length (word_tokenize sentence) <? 4)%nat
      then Ret None
      else
        let noun_phrases := noun_phrases_of sentence in
        replace_nouns <- handle_nouns tags noun_phrases ;;
        if (length replace_nouns =? 0)%nat then Ret None
        else
          let val := shortest replace_nouns in
          similar <-
            (if (length replace_nouns =? 1)%nat
             then word <- getitem replace_nouns 0 ;; answer_options word
             else Ret []) ;;
          let replace_phrase := join (lit " ") replace_nouns in
          let blanks_phrase := strip (times blank (length replace_nouns)) in
          let sentence' :=
            sub_ignorecase_once replace_phrase blanks_phrase sentence in
          Ret (Some {| Answer := replace_phrase;
                       Key := val;
                       Similar := similar;
                       Question := sentence' |})
  end.

(** *** get_question_sets *)

(** Lines 86-88: the body of the loop over the sentences. *)
Definition question_step (sent : str) (question_sets : list question_set)
    : result (flow (list question_set)) :=
  question_set <- identify_potential_questions sent ;;
  match question_set with
  | Some q => Ret (Next (question_sets ++ [q]))
  | None => Ret (Next question_sets)
  end.

(** Lines 72-77 and 85.  The [try] reads [self.summary] and splits it.
    When the attribute is unset the read raises AttributeError, and the
    splitter may raise as well: [except Exception] catches either one and
    only logs it, so that [sentences] is unbound when line 85 reads it and
    the call raises UnboundLocalError in both cases. *)
Definition get_question_sets (self : ObjectiveTest)
    : result (list question_set) :=
  match summary self with
  | None => Raise UnboundLocalError
  | Some text =>
      match sent_tokenize text with
      | None => Raise UnboundLocalError
      | Some sentences => for_each question_step sentences []
      end
  end.

(** *** generate_test *)

(** Lines 51-54. *)
Definition question_answers_of (question_sets : list question_set)
    : list question_set :=
  filter (fun question_set => (3 <? Key question_set)%Z) question_sets.

(** Lines 58-62: the [while] loop.  [rng k] is what the random generator
    supplies at its [k]-th call; every iteration makes one call. *)
Fixpoint sampling (fuel : nat) (num_questions : Z)
    (question_answers : list question_set) (rng : nat -> Z) (k : nat)
    (questions answers : list str) : run (list str * list str) :=
  if (Z.of_nat (length questions) <? num_questions)%Z
  then
    match fuel with
    | 0 => Pending
    | S fuel' =>
        match randint 0 (Z.of_nat (length question_answers)) (rng k) with
        | Raise e => Fail e
        | Ret rand_num =>
            match getitem question_answers rand_num with
            | Raise e => Fail e
            | Ret chosen =>
                if in_dec str_eq_dec (Question chosen) questions
                then sampling fuel' num_questions question_answers rng (S k)
                       questions answers
                else sampling fuel' num_questions question_answers rng (S k)
                       (questions ++ [Question chosen])
                       (answers ++ [Answer chosen])
            end
        end
    end
  else Done (questions, answers).

Definition generate_test (self : ObjectiveTest) (num_questions : Z)
    (rng : nat -> Z) (fuel : nat) : run (list str * list str) :=
  match get_question_sets self with
  | Raise e => Fail e
  | Ret question_sets =>
      let question_answers := question_answers_of question_sets in
      sampling fuel num_questions question_answers rng 0 [] []
  end.

End Program.

(** ** Notions of the specification *)

(** The minimum character length among the words [w :: ws]. *)
Definition minimum_length (w : str) (ws : list str) : Z :=
  fold_right (fun x m => Z.min (len x) m) (len w) ws.

(** [span] is an occurrence of [p] in [s], up to case, after [pre] and before
    [post]. *)
Definition occurrence (p s pre span post : str) : Prop :=
  s = pre ++ span ++ post /\ same_ignorecase span p.

(** The occurrence that starts first. *)
Definition first_occurrence (p s pre span post : str) : Prop :=
  occurrence p s pre span post /\
  forall pre' span' post',
    occurrence p s pre' span' post' -> length pre <= length pre'.

(** The distinct question texts of a list of question sets. *)
Definition distinct_questions (l : list question_set) : list str :=
  nodup str_eq_dec (map Question l).

(** The phrase starts with an apostrophe. *)
Definition leading_apostrophe (phrase : str) : bool :=
  match phrase with
  | [] => false
  | c :: _ => Ascii.eqb c "'"%char
  end.

(** The scan reads the phrase and goes on to the next one: the phrase is
    not empty, does not start with an apostrophe and does not contain the
    word. *)
Definition passed (word phrase : str) : Prop :=
  phrase <> [] /\ leading_apostrophe phrase = false /\
  contains word phrase = false.

(** The invariant of the sampling loop: the questions collected so far are
    pairwise distinct, and each stands next to its answer, both taken from
    one of the question sets. *)
Definition drawn_from (question_answers : list question_set)
    (questions answers : list str) : Prop :=
  NoDup questions /\
  Forall2
    (fun q a =>
       exists r, In r question_answers /\ Question r = q /\ Answer r = a)
    questions answers.

(** The question sets of the sentences that have one, in order. *)
Definition records_of (outcomes : list (option question_set))
    : list question_set :=
  flat_map (fun o => match o with Some q => [q] | None => [] end) outcomes.

(** A word as a tokenizer gives it: not empty and without white space. *)
Definition word_like (w : str) : Prop :=
  w <> [] /\ Forall (fun c => isspace c = false) w.

(** What line 205 does to one character of a lemma name. *)
Definition underscore_to_space (c : ascii) : ascii :=
  if Ascii.eqb "_"%char c then " "%char else c.

(** The name line 205 reads for a hyponym: that of its first lemma. *)
Definition first_name {hierarchy : Hierarchy} (hyponym : synset) (n : str)
    : Prop :=
  exists l ls, lemmas hyponym = l :: ls /\ name l = n.

(** The question set was selected into the test at position [i]. *)
Definition selected (r : question_set) (i : nat)
    (test : list str * list str) : Prop :=
  nth_error (fst test) i = Some (Question r) /\
  nth_error (snd test) i = Some (Answer r).

(** ** A deterministic annotator and hierarchy

    Small stand-ins for NLTK and WordNet, on which the program runs. *)

Module Stub.

(** Sentences end at a full stop; the text after the last one is a sentence
    when it is not blank. *)
Fixpoint sentences_from (cur text : str) : list str :=
  match text with
  | [] => match strip cur with [] => [] | _ :: _ => [strip cur] end
  | c :: text' =>
      if Ascii.eqb c "."%char
      then strip (cur ++ [c]) :: sentences_from [] text'
      else sentences_from (cur ++ [c]) text'
  end.

(** The words the tagger knows; every other token is a noun. *)
Definition lexicon : list (str * str) :=
  [ (lit "Quickly", lit "RB"); (lit "the", lit "DT"); (lit "ran", lit "VBD");
    (lit "cover", lit "VBP"); (lit "store", lit "VBP");
    (lit "lectures", lit "NNS"); (lit "records", lit "NNS");
    (lit "cats", lit "NNS"); (lit "chase", lit "VBP"); (lit "and", lit "CC");
    (lit "safely.", lit "RB"); (lit "names", lit "VBZ"); (lit "one", lit "CD");
    (lit "Entity", lit "NNP"); (lit "a", lit "DT"); (lit "some", lit "DT");
    (lit "SOLAR", lit "JJ"); (lit "PANELS", lit "NNS");
    (lit "beat", lit "VBP") ].

Fixpoint lookup (w : str) (table : list (str * str)) : str :=
  match table with
  | [] => lit "NN"
  | (w', t) :: table' => if str_eqb w w' then t else lookup w table'
  end.

Definition tag_tokens (tokens : list str) : list tagged :=
  map (fun w => (w, lookup w lexicon)) tokens.

(** A run of two or more nouns is a chunk, and so is a proper noun. *)
Definition flush (nouns : list tagged) : list child :=
  match nouns with
  | [] => []
  | [t] => [Token t]
  | _ :: _ :: _ => [Subtree (lit "CHUNK") nouns]
  end.

Fixpoint chunk_from (nouns tokens : list tagged) : list child :=
  match tokens with
  | [] => flush nouns
  | t :: tokens' =>
      if str_eqb (snd t) (lit "NN") then chunk_from (nouns ++ [t]) tokens'
      else if str_eqb (snd t) (lit "NNP")
      then flush nouns ++ Subtree (lit "CHUNK") [t] :: chunk_from [] tokens'
      else flush nouns ++ Token t :: chunk_from [] tokens'
  end.

#[export] Instance annotator : Annotator := {|
  sent_tokenize := fun text => Some (sentences_from [] text);
  word_tokenize := split;
  pos_tag := tag_tokens;
  chunker_parse := chunk_from []
|}.

(** A fragment of a noun hierarchy: synsets are named by their first lemma. *)
Definition noun_senses : list (str * list str) :=
  [ (lit "dog", [lit "dog"]); (lit "Entity", [lit "entity"]) ].

Definition broader : list (str * list str) :=
  [ (lit "dog", [lit "canine"]) ].

Definition narrower : list (str * list str) :=
  [ (lit "canine",
     [lit "bitch"; lit "dog"; lit "fox"; lit "hyena"; lit "jackal";
      lit "wild_dog"; lit "wolf"; lit "coyote"; lit "dingo"; lit "dhole"]) ].

Fixpoint entries (w : str) (table : list (str * list str)) : list str :=
  match table with
  | [] => []
  | (w', l) :: table' => if str_eqb w w' then l else entries w table'
  end.

#[export] Instance hierarchy : Hierarchy := {|
  synset := str;
  wnlemma := str;
  synsets := fun word pos =>
    if str_eqb pos (lit "n") then entries word noun_senses else [];
  hypernyms := fun s => entries s broader;
  hyponyms := fun s => entries s narrower;
  lemmas := fun s => [s];
  name := fun l => l
|}.

(** Corpora. *)
Definition courses : ObjectiveTest :=
  {| summary := Some (lit
       "compiler design lectures cover parsing theory. database systems store records safely.") |}.

Definition compiler_sentence : str :=
  lit "compiler design lectures cover parsing theory.".

Definition compiler_question : question_set :=
  {| Answer := lit "compiler design";
     Key := 6;
     Similar := [];
     Question := lit "____________________ lectures cover parsing theory." |}.

Definition database_question : question_set :=
  {| Answer := lit "database systems";
     Key := 7;
     Similar := [];
     Question := lit "____________________ store records safely." |}.

Definition adverb_first : str := lit "Quickly the dog ran home".

Definition adverb_first_question : question_set :=
  {| Answer := lit "Q";
     Key := 1;
     Similar := [];
     Question := lit "__________uickly the dog ran home" |}.

Definition one_letter_question : question_set :=
  {| Answer := lit "Q";
     Key := 1;
     Similar := [];
     Question := lit "__________uickly the dog ran home." |}.



(** The blanked words stand in the sentence with two spaces between them. *)
Definition two_spaces : str :=
  lit "compiler  design lectures cover parsing theory.".

(** The blanked words occur earlier in the sentence in capitals. *)
Definition capitals_first : str := lit "some SOLAR PANELS beat solar panels".

Definition capitals_first_question : question_set :=
  {| Answer := lit "solar panels";
     Key := 5;
     Similar := [];
     Question := lit "some ____________________ beat solar panels" |}.

Definition long_word : str := times (lit "ab") 50.

Definition long_words : str :=
  long_word ++ lit " " ++ long_word ++ lit " names one thing".

Definition one_letter : ObjectiveTest :=
  {| summary := Some (lit "Quickly the dog ran home.") |}.

Definition top_sense : str := lit "Entity names one thing.".

Definition top_sense_corpus : ObjectiveTest :=
  {| summary := Some (lit
       "compiler design lectures cover parsing theory. Entity names one thing.") |}.

Definition counting : nat -> Z := Z.of_nat.



End Stub.

Unset Implicit Arguments.

(** ** Strings *)

Section Strings.

Lemma str_eqb_true (a b : str) : str_eqb a b = true <-> a = b.
Proof.
  unfold str_eqb. destruct (str_eq_dec a b); split; congruence.
Qed.

Lemma str_eqb_false (a b : str) : str_eqb a b = false <-> a <> b.
Proof.
  unfold str_eqb. destruct (str_eq_dec a b); split; congruence.
Qed.


Lemma lstrip_id (s : str) :
  match s with [] => True | c :: _ => isspace c = false end -> lstrip s = s.
Proof.
  destruct s as [|c s]; simpl; [reflexivity|].
  intros ->. reflexivity.
Qed.

(** A text without white space is its own [strip]. *)
Lemma strip_no_space (s : str) :
  Forall (fun c => isspace c = false) s -> strip s = s.
Proof.
  intros H. unfold strip, rstrip.
  assert (Hr : lstrip (rev s) = rev s).
  { apply lstrip_id. destruct (rev s) as [|c r] eqn:E; [exact I|].
    rewrite Forall_forall in H. apply H. apply in_rev. rewrite E. left.
    reflexivity. }
  rewrite Hr, rev_involutive. apply lstrip_id.
  destruct s as [|c s]; [exact I|]. inversion H; assumption.
Qed.

Lemma times_blank_no_space (n : nat) :
  Forall (fun c => isspace c = false) (times blank n).
Proof.
  unfold times. induction n as [|n IH]; simpl; [constructor|].
  unfold blank, lit. simpl.
  repeat (apply Forall_cons; [reflexivity|]). exact IH.
Qed.

(** Line 170: stripping the run of blank markers changes nothing. *)
Lemma strip_times_blank (n : nat) : strip (times blank n) = times blank n.
Proof. apply strip_no_space, times_blank_no_space. Qed.




Lemma lower_eqb (a b : ascii) :
  Ascii.eqb (lower a) (lower b) = true <-> lower a = lower b.
Proof. apply Ascii.eqb_eq. Qed.

(** [match_ignorecase] finds exactly the prefixes equal to the literal up to
    case. *)
Lemma match_ignorecase_true (p s : str) :
  match_ignorecase p s = true <->
  exists span post, s = span ++ post /\ same_ignorecase span p.
Proof.
  unfold same_ignorecase. revert s.
  induction p as [|a p IH]; intros s; simpl.
  - split; [|reflexivity]. intros _. exists [], s. split; reflexivity.
  - destruct s as [|b s].
    + split; [discriminate|]. intros (span & post & H1 & H2).
      destruct span; simpl in *; discriminate.
    + rewrite andb_true_iff, lower_eqb, IH. split.
      * intros (Hab & span & post & -> & Hs).
        exists (b :: span), post. simpl. split; [reflexivity|congruence].
      * intros (span & post & H1 & H2).
        destruct span as [|c span]; simpl in *; [discriminate|].
        injection H1 as -> ->. injection H2 as Hc Hs.
        split; [congruence|]. exists span, post. split; [reflexivity|exact Hs].
Qed.

Lemma same_ignorecase_length (a b : str) :
  same_ignorecase a b -> length a = length b.
Proof.
  unfold same_ignorecase. intros H.
  rewrite <- (length_map lower a), <- (length_map lower b), H. reflexivity.
Qed.

(** The substitution of line 172 replaces the first occurrence of the
    literal, and leaves a text without occurrence as it is. *)
Lemma sub_ignorecase_once_spec (p repl s : str) :
  (exists pre span post,
      first_occurrence p s pre span post /\
      sub_ignorecase_once p repl s = pre ++ repl ++ post) \/
  ((forall pre span post, ~ occurrence p s pre span post) /\
   sub_ignorecase_once p repl s = s).
Proof.
  induction s as [|c s IH].
  - simpl. destruct (match_ignorecase p []) eqn:E.
    + left. apply match_ignorecase_true in E as (span & post & Hs & Hci).
      exists [], span, post. split.
      * split; [split; [exact Hs|exact Hci]|]. intros; simpl; lia.
      * simpl. f_equal. rewrite Hs.
        rewrite <- (same_ignorecase_length _ _ Hci), skipn_app, skipn_all.
        rewrite Nat.sub_diag. reflexivity.
    + right. split; [|reflexivity]. intros pre span post [Hs Hci].
      destruct pre; [|discriminate]. simpl in Hs.
      assert (match_ignorecase p [] = true); [|congruence].
      apply match_ignorecase_true. exists span, post. split; assumption.
  - simpl. destruct (match_ignorecase p (c :: s)) eqn:E.
    + left. apply match_ignorecase_true in E as (span & post & Hs & Hci).
      exists [], span, post. split.
      * split; [split; [exact Hs|exact Hci]|]. intros; simpl; lia.
      * simpl. f_equal. rewrite Hs.
        rewrite <- (same_ignorecase_length _ _ Hci), skipn_app, skipn_all.
        rewrite Nat.sub_diag. reflexivity.
    + assert (Hno : forall span post,
                 ~ occurrence p (c :: s) [] span post).
      { intros span post [Hs Hci]. simpl in Hs.
        assert (match_ignorecase p (c :: s) = true); [|congruence].
        apply match_ignorecase_true. exists span, post. split; assumption. }
      destruct IH as [(pre & span & post & [[Hs Hci] Hfirst] & Hsub)|[Hnone Hsub]].
      * left. exists (c :: pre), span, post. split.
        -- split; [split; [simpl; congruence|exact Hci]|].
           intros pre' span' post' [Hs' Hci'].
           destruct pre' as [|c' pre'].
           ++ exfalso. apply (Hno span' post'). split; assumption.
           ++ simpl in Hs'. injection Hs' as _ Hs'. simpl.
              apply le_n_S, (Hfirst pre' span' post'). split; assumption.
        -- simpl. rewrite Hsub. reflexivity.
      * right. split; [|rewrite Hsub; reflexivity].
        intros pre span post [Hs Hci].
        destruct pre as [|c' pre].
        -- apply (Hno span post). split; assumption.
        -- simpl in Hs. injection Hs as _ Hs.
           apply (Hnone pre span post). split; assumption.
Qed.

End Strings.

(** ** Loops *)

Section Loops.

Variables (A S : Type) (body : A -> S -> result (flow S)).

(** A prefix of items on which the body asks for the next one can be run
    on its own. *)
Lemma for_each_app (before rest : list A) (s : S) :
  Forall (fun x => forall s0, exists s1, body x s0 = Ret (Next s1)) before ->
  exists s', for_each body before s = Ret s' /\
             for_each body (before ++ rest) s = for_each body rest s'.
Proof.
  revert s. induction before as [|x before IH]; intros s Hb; simpl.
  - exists s. split; reflexivity.
  - inversion Hb as [|? ? Hx Hb']; subst.
    destruct (Hx s) as [s1 ->]. apply IH. exact Hb'.
Qed.

Lemma for_each_raise (x : A) (rest : list A) (s : S) (e : exn) :
  body x s = Raise e -> for_each body (x :: rest) s = Raise e.
Proof. simpl. intros ->. reflexivity. Qed.

End Loops.

(** ** The distractor generator *)

Section Distractors.

Context {hierarchy : Hierarchy}.

(** The loop of lines 204-209 keeps at most eight words, none of them
    [word]. *)
Lemma similar_loop_bounded (word : str) (candidates : list synset) :
  forall similar_words similar,
    for_each (similar_step word) candidates similar_words = Ret similar ->
    length similar_words < 8 -> ~ In word similar_words ->
    length similar <= 8 /\ ~ In word similar.
Proof.
  induction candidates as [|hyponym candidates IH];
    intros similar_words similar Hrun Hlen Hnot; simpl in Hrun.
  - injection Hrun as <-. split; [lia|exact Hnot].
  - unfold similar_step in Hrun.
    destruct (lemmas hyponym) as [|l ls]; [discriminate|].
    set (similar_word := replace (lit "_") (lit " ") (name l)) in Hrun.
    destruct (str_eqb similar_word word) eqn:Eq.
    + destruct (length similar_words =? 8) eqn:E8.
      * apply Nat.eqb_eq in E8. lia.
      * apply (IH _ _ Hrun Hlen Hnot).
    + apply str_eqb_false in Eq.
      assert (Hnot' : ~ In word (similar_words ++ [similar_word])).
      { rewrite in_app_iff. simpl. intros [H|[H|[]]]; [tauto|congruence]. }
      destruct (length (similar_words ++ [similar_word]) =? 8) eqn:E8.
      * apply Nat.eqb_eq in E8. injection Hrun as <-. split; [lia|exact Hnot'].
      * apply Nat.eqb_neq in E8. rewrite length_app in E8. simpl in E8.
        apply (IH _ _ Hrun); [rewrite length_app; simpl; lia|exact Hnot'].
Qed.

(** C5. Whenever the distractor generator returns normally for a word, the
    list it returns has at most 8 entries, does not contain the word, and is
    empty when the word has no noun synset. *)
Theorem answer_options_bounded (word : str) (similar : list str) :
  answer_options word = Ret similar ->
  length similar <= 8 /\
  ~ In word similar /\
  (synsets word (lit "n") = [] -> similar = []).
Proof.
  unfold answer_options. intros Hrun.
  destruct (synsets word (lit "n")) as [|synset0 others].
  - injection Hrun as <-. repeat split; [simpl; lia|intros []].
  - destruct (hypernyms synset0) as [|hypernym hs]; [discriminate|].
    destruct (similar_loop_bounded _ _ _ _ Hrun) as [Hlen Hnot];
      [simpl; lia|intros []|].
    repeat split; [exact Hlen|exact Hnot|discriminate].
Qed.

Lemma answer_options_raises (word : str) (synset0 : synset)
    (others : list synset) :
  synsets word (lit "n") = synset0 :: others ->
  hypernyms synset0 = [] ->
  answer_options word = Raise IndexError.
Proof. unfold answer_options. intros -> ->. reflexivity. Qed.

End Distractors.

(** ** The blank selector *)

Section Selector.

Context {annotator : Annotator} {hierarchy : Hierarchy}.



Lemma phrase_step_passed (word phrase : str) (replace_nouns : list str) :
  passed word phrase ->
  phrase_step word phrase replace_nouns = Ret (Next replace_nouns).
Proof.
  intros (Hne & Hap & Hin). unfold phrase_step.
  destruct phrase as [|c phrase]; [congruence|].
  simpl in Hap. rewrite Hap, Hin. reflexivity.
Qed.

Lemma phrase_step_hit (word phrase : str) (replace_nouns : list str) :
  phrase <> [] -> leading_apostrophe phrase = false ->
  contains word phrase = true ->
  phrase_step word phrase replace_nouns =
  Ret (Break (replace_nouns ++ last_two (split phrase))).
Proof.
  intros Hne Hap Hin. unfold phrase_step.
  destruct phrase as [|c phrase]; [congruence|].
  simpl in Hap. rewrite Hap, Hin. reflexivity.
Qed.


Lemma scan_passed (word : str) (before rest : list str)
    (replace_nouns : list str) :
  Forall (passed word) before ->
  for_each (phrase_step word) (before ++ rest) replace_nouns =
  for_each (phrase_step word) rest replace_nouns.
Proof.
  induction 1 as [|q before Hq _ IH]; simpl; [reflexivity|].
  rewrite (phrase_step_passed _ _ _ Hq). exact IH.
Qed.

(** The loop over the tags runs its body once, on the first tag. *)
Lemma handle_nouns_head (tag0 : tagged) (tags : list tagged)
    (noun_phrases : list str) :
  handle_nouns (tag0 :: tags) noun_phrases =
  (replace_nouns <- for_each (phrase_step (fst tag0)) noun_phrases [] ;;
   Ret (if (length replace_nouns =? 0)%nat then replace_nouns ++ [fst tag0]
        else replace_nouns)).
Proof.
  unfold handle_nouns. simpl. unfold tag_step.
  destruct (for_each (phrase_step (fst tag0)) noun_phrases []);
    reflexivity.
Qed.

(** What a returned question set was built from. *)
Lemma identify_potential_questions_inv (sentence : str) (r : question_set) :
  identify_potential_questions sentence = Ret (Some r) ->
  exists tag0 tags replace_nouns similar,
    pos_tag (chars sentence) = tag0 :: tags /\
    str_eqb (snd tag0) (lit "RB") = false /\
    4 <= length (word_tokenize sentence) /\
    handle_nouns (tag0 :: tags) (noun_phrases_of sentence)
      = Ret replace_nouns /\
    replace_nouns <> [] /\
    r = {| Answer := join (lit " ") replace_nouns;
           Key := shortest replace_nouns;
           Similar := similar;
           Question :=
             sub_ignorecase_once (join (lit " ") replace_nouns)
               (times blank (length replace_nouns)) sentence |}.
Proof.
  unfold identify_potential_questions. intros H.
  destruct (pos_tag (chars sentence)) as [|tag0 tags] eqn:Et; [discriminate|].
  destruct (str_eqb (snd tag0) (lit "RB")) eqn:Erb; [discriminate|].
  destruct (length (word_tokenize sentence) <? 4) eqn:E4; [discriminate|].
  cbn [orb] in H. unfold bind at 1 in H.
  destruct (handle_nouns (tag0 :: tags) (noun_phrases_of sentence))
    as [replace_nouns|e] eqn:Eh; [|discriminate].
  destruct (length replace_nouns =? 0) eqn:E0; [discriminate|].
  unfold bind at 1 in H.
  destruct (if length replace_nouns =? 1
            then word <- getitem replace_nouns 0;; answer_options word
            else Ret []) as [similar|e]; [|discriminate].
  injection H as <-. rewrite strip_times_blank.
  exists tag0, tags, replace_nouns, similar.
  apply Nat.ltb_ge in E4. apply Nat.eqb_neq in E0.
  split; [reflexivity|]. split; [exact Erb|]. split; [exact E4|].
  split; [exact Eh|]. split; [|reflexivity].
  intros ->. apply E0. reflexivity.
Qed.

(** The eligibility filter of lines 102-104, as the code applies it. *)
Lemma eligibility_filter (sentence : str) (tag0 : tagged)
    (tags : list tagged) :
  pos_tag (chars sentence) = tag0 :: tags ->
  snd tag0 = lit "RB" \/ length (word_tokenize sentence) < 4 ->
  identify_potential_questions sentence = Ret None.
Proof.
  unfold identify_potential_questions. intros -> H.
  assert (E : str_eqb (snd tag0) (lit "RB")
              || (length (word_tokenize sentence) <? 4) = true).
  { apply orb_true_iff. destruct H as [H|H].
    - left. apply str_eqb_true. exact H.
    - right. apply Nat.ltb_lt. exact H. }
  rewrite E. reflexivity.
Qed.

(** The sentinel of line 150 caps the minimum of lines 151-155. *)
Lemma fold_min_start (ws : list str) (a v : Z) :
  fold_right (fun x m => Z.min (len x) m) (Z.min a v) ws =
  Z.min a (fold_right (fun x m => Z.min (len x) m) v ws).
Proof.
  induction ws as [|w ws IH]; simpl; [reflexivity|].
  rewrite IH. lia.
Qed.

Lemma shortest_fold (ws : list str) (v : Z) :
  fold_left (fun val i => if (len i <? val)%Z then len i else val) ws v =
  fold_right (fun x m => Z.min (len x) m) v ws.
Proof.
  revert v. induction ws as [|w ws IH]; intros v; simpl; [reflexivity|].
  rewrite IH.
  replace (if (len w <? v)%Z then len w else v) with (Z.min (len w) v)
    by (destruct (Z.ltb_spec (len w) v); lia).
  apply fold_min_start.
Qed.

Lemma shortest_capped (w : str) (ws : list str) :
  shortest (w :: ws) = Z.min 99 (minimum_length w ws).
Proof.
  unfold shortest, minimum_length. rewrite shortest_fold. simpl.
  rewrite <- fold_min_start, Z.min_comm. apply fold_min_start.
Qed.


(** C6 (amended). For every question set whose sentence holds an
    occurrence, up to case, of the words to blank joined by spaces, the
    question is the sentence in which the first such occurrence is replaced
    by one run of ten underscores per word, without separators, so that
    putting the answer back in the place of that run gives the sentence up
    to the case of the replaced span.  When the sentence holds no such
    occurrence, the question is the sentence as it is. *)
Theorem question_blanks_first_occurrence (sentence : str) (r : question_set) :
  identify_potential_questions sentence = Ret (Some r) ->
  exists replace_nouns,
    handle_nouns (pos_tag (chars sentence)) (noun_phrases_of sentence) =
    Ret replace_nouns /\
    Answer r = join (lit " ") replace_nouns /\
    Question r =
    sub_ignorecase_once (Answer r)
      (concat (repeat (lit "__________") (length replace_nouns))) sentence /\
    ((exists pre span post, occurrence (Answer r) sentence pre span post) ->
     exists pre span post,
       first_occurrence (Answer r) sentence pre span post /\
       Question r =
       pre ++ concat (repeat (lit "__________") (length replace_nouns))
           ++ post /\
       same_ignorecase (pre ++ Answer r ++ post) sentence) /\
    ((forall pre span post, ~ occurrence (Answer r) sentence pre span post) ->
     Question r = sentence).
Proof.
  intros Hr.
  destruct (identify_potential_questions_inv _ _ Hr)
    as (tag0 & tags & replace_nouns & similar & Ht & _ & _ & Hh & _ & ->).
  exists replace_nouns. rewrite Ht. simpl.
  split; [exact Hh|]. split; [reflexivity|]. split; [reflexivity|].
  fold blank. fold (times blank (length replace_nouns)).
  destruct (sub_ignorecase_once_spec (join (lit " ") replace_nouns)
              (times blank (length replace_nouns)) sentence)
    as [(pre & span & post & Hfirst & Hsub)|[Hnone Hsub]].
  - split.
    + intros _. exists pre, span, post. split; [exact Hfirst|].
      split; [exact Hsub|].
      destruct Hfirst as [[Hs Hci] _]. unfold same_ignorecase in *.
      rewrite Hs, !map_app, Hci. reflexivity.
    + intros Hnone. exfalso. destruct Hfirst as [Hocc _].
      exact (Hnone pre span post Hocc).
  - split.
    + intros (pre & span & post & Hocc). exfalso.
      exact (Hnone pre span post Hocc).
    + intros _. exact Hsub.
Qed.

(** C9 (amended). For every question set, the key is the smaller of 99 and
    the minimum character length among the words to blank. *)
Theorem key_capped_minimum (sentence : str) (r : question_set) :
  identify_potential_questions sentence = Ret (Some r) ->
  exists w ws,
    handle_nouns (pos_tag (chars sentence)) (noun_phrases_of sentence) =
    Ret (w :: ws) /\
    Key r = Z.min 99 (minimum_length w ws).
Proof.
  intros Hr.
  destruct (identify_potential_questions_inv _ _ Hr)
    as (tag0 & tags & replace_nouns & similar & Ht & _ & _ & Hh & Hne & ->).
  destruct replace_nouns as [|w ws]; [congruence|].
  exists w, ws. rewrite Ht. split; [exact Hh|]. apply shortest_capped.
Qed.

(** C8. For every word whose first noun synset has no hypernym, the
    distractor generator raises IndexError instead of returning; nothing
    catches it: the blank selector raises it for a sentence in which this
    word alone is blanked, and so does [generate_test] for a corpus whose
    earlier sentences are processed without error. *)
Theorem answer_options_no_hypernym (word : str) (synset0 : synset)
    (others : list synset) :
  synsets word (lit "n") = synset0 :: others ->
  hypernyms synset0 = [] ->
  answer_options word = Raise IndexError /\
  (forall sentence tag0 tags,
      pos_tag (chars sentence) = tag0 :: tags ->
      str_eqb (snd tag0) (lit "RB") = false ->
      4 <= length (word_tokenize sentence) ->
      handle_nouns (tag0 :: tags) (noun_phrases_of sentence) = Ret [word] ->
      identify_potential_questions sentence = Raise IndexError /\
      (forall self text before after num_questions rng fuel,
          summary self = Some text ->
          sent_tokenize text = Some (before ++ sentence :: after) ->
          Forall (fun s => exists q, identify_potential_questions s = Ret q)
            before ->
          generate_test self num_questions rng fuel = Fail IndexError)).
Proof.
  intros Hsyn Hhyp.
  pose proof (answer_options_raises _ _ _ Hsyn Hhyp) as Hraise.
  split; [exact Hraise|].
  intros sentence tag0 tags Ht Hrb H4 Hh.
  assert (Hipq : identify_potential_questions sentence = Raise IndexError).
  { unfold identify_potential_questions. rewrite Ht, Hrb.
    apply Nat.ltb_ge in H4. rewrite H4. cbn [orb]. rewrite Hh.
    simpl. rewrite Hraise. reflexivity. }
  split; [exact Hipq|].
  intros self text before after num_questions rng fuel Hsum Hsent Hbefore.
  unfold generate_test, get_question_sets. rewrite Hsum, Hsent.
  assert (Hnext : Forall
            (fun s => forall s0, exists s1, question_step s s0 = Ret (Next s1))
            before).
  { apply Forall_impl with (2 := Hbefore). intros s [q Hq] s0.
    unfold question_step. rewrite Hq. destruct q; eexists; reflexivity. }
  destruct (for_each_app _ _ question_step before (sentence :: after) []
              Hnext) as (s' & _ & ->).
  rewrite (for_each_raise _ _ question_step sentence after s' IndexError);
    [reflexivity|].
  unfold question_step. rewrite Hipq. reflexivity.
Qed.

End Selector.

(** ** The test assembler *)

Section Sampling.

Context {annotator : Annotator} {hierarchy : Hierarchy}.

(** Case analysis on the test of the [while] loop. *)
Ltac loop_test :=
  match goal with
  | |- context [(Z.of_nat (length ?qs) <? ?n)%Z] =>
      destruct (Z.ltb_spec (Z.of_nat (length qs)) n)
  | H : context [(Z.of_nat (length ?qs) <? ?n)%Z] |- _ =>
      destruct (Z.ltb_spec (Z.of_nat (length qs)) n)
  end.

Lemma randint_range (n raw : Z) :
  (0 < n)%Z ->
  exists i, randint 0 n raw = Ret i /\ (0 <= i < n)%Z.
Proof.
  intros Hn. unfold randint.
  destruct (Z.leb_spec n 0); [lia|].
  exists (0 + raw mod (n - 0))%Z. split; [reflexivity|].
  rewrite Z.sub_0_r, Z.add_0_l. apply Z.mod_pos_bound. exact Hn.
Qed.

Lemma getitem_range (A : Type) (l : list A) (i : Z) :
  (0 <= i < Z.of_nat (length l))%Z ->
  exists x, getitem l i = Ret x /\ In x l.
Proof.
  intros Hi. unfold getitem.
  destruct (nth_error l (Z.to_nat i)) as [x|] eqn:E.
  - exists x. split; [reflexivity|]. apply nth_error_In with (1 := E).
  - apply nth_error_None in E. lia.
Qed.

(** One iteration of the loop over a list that is not empty: an index is
    drawn, and the chosen question set is appended unless its question is
    known. *)
Lemma sampling_iteration (fuel : nat) (num_questions : Z)
    (question_answers : list question_set) (rng : nat -> Z) (k : nat)
    (questions answers : list str) :
  (Z.of_nat (length questions) < num_questions)%Z ->
  question_answers <> [] ->
  exists chosen,
    In chosen question_answers /\
    sampling (S fuel) num_questions question_answers rng k questions answers =
    if in_dec str_eq_dec (Question chosen) questions
    then sampling fuel num_questions question_answers rng (S k)
           questions answers
    else sampling fuel num_questions question_answers rng (S k)
           (questions ++ [Question chosen]) (answers ++ [Answer chosen]).
Proof.
  intros Hlt Hne. cbn [sampling]. loop_test; [|lia].
  destruct (randint_range (Z.of_nat (length question_answers)) (rng k))
    as (i & -> & Hi).
  { destruct question_answers; [congruence|]. cbn [length]. lia. }
  destruct (getitem_range _ question_answers i Hi) as (chosen & -> & Hin).
  exists chosen. split; [exact Hin|reflexivity].
Qed.

Lemma drawn_from_append (question_answers : list question_set)
    (questions answers : list str) (chosen : question_set) :
  drawn_from question_answers questions answers ->
  In chosen question_answers ->
  ~ In (Question chosen) questions ->
  drawn_from question_answers (questions ++ [Question chosen])
    (answers ++ [Answer chosen]).
Proof.
  intros [Hnd Hall] Hin Hnew. split.
  - apply NoDup_app; [exact Hnd|repeat constructor; intros []|].
    intros a Ha [<-|[]]. exact (Hnew Ha).
  - apply Forall2_app; [exact Hall|]. repeat constructor.
    exists chosen. repeat split. exact Hin.
Qed.

Lemma drawn_from_incl (question_answers : list question_set)
    (questions answers : list str) :
  drawn_from question_answers questions answers ->
  incl questions (distinct_questions question_answers).
Proof.
  intros [_ Hall]. induction Hall as [|q a qs ans (r & Hin & <- & _) _ IH].
  - intros x [].
  - intros x [<-|Hx]; [|exact (IH x Hx)].
    unfold distinct_questions. apply nodup_In, in_map, Hin.
Qed.

(** The loop returns only when the number asked for is reached, and what it
    returns satisfies the invariant. *)
Lemma sampling_done (num_questions : Z) (question_answers : list question_set)
    (rng : nat -> Z) (test : list str * list str) :
  forall fuel k questions answers,
    sampling fuel num_questions question_answers rng k questions answers
      = Done test ->
    drawn_from question_answers questions answers ->
    (Z.of_nat (length questions) <= Z.max 0 num_questions)%Z ->
    drawn_from question_answers (fst test) (snd test) /\
    Z.of_nat (length (fst test)) = Z.max 0 num_questions.
Proof.
  induction fuel as [|fuel IH]; intros k questions answers Hrun Hinv Hle.
  - cbn [sampling] in Hrun. loop_test; [discriminate|].
    injection Hrun as <-. split; [exact Hinv|]. cbn [fst]. lia.
  - destruct (Z.ltb_spec (Z.of_nat (length questions)) num_questions)
      as [Hlt|Hge].
    + destruct question_answers as [|r0 rest] eqn:Eqa.
      { cbn [sampling] in Hrun. loop_test; [|lia]. discriminate. }
      rewrite <- Eqa in *.
      destruct (sampling_iteration fuel num_questions question_answers rng k
                  questions answers Hlt) as (chosen & Hin & Hstep).
      { rewrite Eqa. discriminate. }
      rewrite Hstep in Hrun.
      destruct (in_dec str_eq_dec (Question chosen) questions) as [Hold|Hnew].
      * apply (IH _ _ _ Hrun Hinv Hle).
      * apply (IH _ _ _ Hrun).
        -- apply drawn_from_append; assumption.
        -- rewrite length_app. cbn [length]. lia.
    + cbn [sampling] in Hrun. loop_test; [lia|].
      injection Hrun as <-. split; [exact Hinv|]. cbn [fst]. lia.
Qed.

(** With fewer distinct questions than asked for, the loop is still running
    after any number of iterations. *)
Lemma sampling_pending (num_questions : Z)
    (question_answers : list question_set) (rng : nat -> Z) :
  question_answers <> [] ->
  (Z.of_nat (length (distinct_questions question_answers)) < num_questions)%Z ->
  forall fuel k questions answers,
    drawn_from question_answers questions answers ->
    sampling fuel num_questions question_answers rng k questions answers
      = Pending.
Proof.
  intros Hne Hfew. induction fuel as [|fuel IH]; intros k questions answers Hinv.
  - assert (Hlen : length questions
                   <= length (distinct_questions question_answers)).
    { apply NoDup_incl_length; [apply Hinv|].
      apply drawn_from_incl with (1 := Hinv). }
    cbn [sampling]. loop_test; [reflexivity|lia].
  - assert (Hlen : length questions
                   <= length (distinct_questions question_answers)).
    { apply NoDup_incl_length; [apply Hinv|].
      apply drawn_from_incl with (1 := Hinv). }
    destruct (sampling_iteration fuel num_questions question_answers rng k
                questions answers) as (chosen & Hin & ->); [lia|exact Hne|].
    destruct (in_dec str_eq_dec (Question chosen) questions) as [Hold|Hnew].
    + apply IH. exact Hinv.
    + apply IH. apply drawn_from_append; assumption.
Qed.

Lemma drawn_from_nil (question_answers : list question_set) :
  drawn_from question_answers [] [].
Proof. split; constructor. Qed.

Lemma Forall2_nth_error_l (A B : Type) (R : A -> B -> Prop) (l : list A)
    (l' : list B) :
  Forall2 R l l' ->
  forall i x, nth_error l i = Some x ->
              exists y, nth_error l' i = Some y /\ R x y.
Proof.
  induction 1 as [|a b l l' Hab _ IH]; intros i x Hi.
  - destruct i; discriminate.
  - destruct i as [|i]; simpl in *.
    + injection Hi as <-. exists b. split; [reflexivity|exact Hab].
    + apply IH. exact Hi.
Qed.

(** C1 (amended). For every call of [generate_test] that returns, the two
    sequences have the same length, which is [num_questions] when it is not
    negative and 0 otherwise, and the questions are pairwise distinct. *)
Theorem generate_test_lengths (self : ObjectiveTest) (num_questions : Z)
    (rng : nat -> Z) (fuel : nat) (questions answers : list str) :
  generate_test self num_questions rng fuel = Done (questions, answers) ->
  length questions = length answers /\
  Z.of_nat (length questions) = Z.max 0 num_questions /\
  NoDup questions.
Proof.
  unfold generate_test. intros Hrun.
  destruct (get_question_sets self) as [question_sets|e]; [|discriminate].
  destruct (sampling_done _ _ _ _ _ _ _ _ Hrun (drawn_from_nil _))
    as [[Hnd Hall] Hlen]; [cbn [length]; lia|].
  cbn [fst snd] in *. split; [|split].
  - apply Forall2_length with (1 := Hall).
  - exact Hlen.
  - exact Hnd.
Qed.

(** C3. For every corpus and every number of questions, when the question
    sets with a key above 3 are at least one and have fewer distinct
    question texts than the number asked for, the sampling loop of
    [generate_test] does not end: whatever the random draws and however many
    iterations are allowed, the call is still in the loop. *)
Theorem generate_test_never_ends (self : ObjectiveTest) (num_questions : Z)
    (question_sets : list question_set) :
  get_question_sets self = Ret question_sets ->
  question_answers_of question_sets <> [] ->
  (Z.of_nat (length (distinct_questions (question_answers_of question_sets)))
   < num_questions)%Z ->
  forall rng fuel, generate_test self num_questions rng fuel = Pending.
Proof.
  intros Hsets Hne Hfew rng fuel. unfold generate_test. rewrite Hsets.
  apply sampling_pending; [exact Hne|exact Hfew|apply drawn_from_nil].
Qed.

(** C4. In a returned test, every position holds the question and the answer
    of a question set of the corpus whose key is above 3, and that question
    occurs exactly once among the questions of the test. *)
Theorem selected_question_sets (self : ObjectiveTest) (num_questions : Z)
    (rng : nat -> Z) (fuel : nat) (test : list str * list str) :
  generate_test self num_questions rng fuel = Done test ->
  exists question_sets,
    get_question_sets self = Ret question_sets /\
    forall i q,
      nth_error (fst test) i = Some q ->
      exists r,
        In r question_sets /\ (3 < Key r)%Z /\
        selected r i test /\ Question r = q /\
        count_occ str_eq_dec (fst test) (Question r) = 1.
Proof.
  unfold generate_test. intros Hrun.
  destruct (get_question_sets self) as [question_sets|e]; [|discriminate].
  exists question_sets. split; [reflexivity|].
  destruct (sampling_done _ _ _ _ _ _ _ _ Hrun (drawn_from_nil _))
    as [[Hnd Hall] _]; [cbn [length]; lia|].
  intros i q Hq.
  destruct (Forall2_nth_error_l _ _ _ _ _ Hall i q Hq)
    as (a & Ha & r & Hin & Hrq & Hra).
  exists r. unfold question_answers_of in Hin.
  apply filter_In in Hin as [Hin Hkey]. apply Z.ltb_lt in Hkey.
  split; [exact Hin|]. split; [exact Hkey|]. split; [|split].
  - unfold selected. rewrite Hrq, Hra. split; assumption.
  - exact Hrq.
  - apply NoDup_count_occ'; [exact Hnd|].
    rewrite Hrq. apply nth_error_In with (1 := Hq).
Qed.

(** C10 (amended). Once the question sets are derived: when none has a key above 3
    and at least one question is asked for, [generate_test] raises
    ValueError at the first draw of an index, in its first iteration; when
    the number asked for is zero or negative it returns two empty sequences,
    whatever the question sets, the random draws and the fuel are. *)
Theorem generate_test_edge_cases (self : ObjectiveTest) (num_questions : Z)
    (question_sets : list question_set) (rng : nat -> Z) (fuel : nat) :
  get_question_sets self = Ret question_sets ->
  ((1 <= num_questions)%Z ->
   question_answers_of question_sets = [] ->
   generate_test self num_questions rng (S fuel) = Fail ValueError) /\
  ((num_questions <= 0)%Z ->
   generate_test self num_questions rng fuel = Done ([], []) /\
   forall question_answers rng' fuel' k,
     sampling fuel' num_questions question_answers rng' k [] []
     = Done ([], [])).
Proof.
  intros Hsets. unfold generate_test. rewrite Hsets. split.
  - intros Hnum ->. cbn [sampling]. loop_test; [reflexivity|].
    cbn [length] in *. lia.
  - intros Hnum.
    assert (H : forall question_answers rng' fuel' k,
               sampling fuel' num_questions question_answers rng' k [] []
               = Done ([], [])).
    { intros question_answers rng' fuel' k.
      destruct fuel'; cbn [sampling]; loop_test;
        (reflexivity || (cbn [length] in *; lia)). }
    split; [apply H|exact H].
Qed.

End Sampling.

(** ** The program on the stand-ins *)

Section Runs.

Import Stub.

(** C1, as the specification states it, fails for a negative number of
    questions: the call returns two empty sequences, whose length is not the
    number asked for. *)
Lemma generate_test_negative_count :
  generate_test courses (-1) counting 0 = Done ([], []) /\
  ~ (length (@nil str) = length (@nil str) /\
     Z.of_nat (length (@nil str)) = (-1)%Z /\
     NoDup (@nil str)).
Proof.
  split; [vm_compute; reflexivity|].
  intros (_ & H & _). discriminate H.
Qed.

Lemma generate_test_lengths_witness :
  generate_test courses 2 counting 10
  = Done ([Question compiler_question; Question database_question],
          [Answer compiler_question; Answer database_question]) /\
  (length [Question compiler_question; Question database_question]
   = length [Answer compiler_question; Answer database_question] /\
   Z.of_nat (length [Question compiler_question; Question database_question])
   = Z.max 0 2 /\
   NoDup [Question compiler_question; Question database_question]).
Proof.
  split; [vm_compute; reflexivity|].
  apply (generate_test_lengths courses 2 counting 10).
  vm_compute. reflexivity.
Defined.



Lemma generate_test_never_ends_witness :
  get_question_sets courses = Ret [compiler_question; database_question] /\
  question_answers_of [compiler_question; database_question] <> [] /\
  (Z.of_nat
     (length
        (distinct_questions
           (question_answers_of [compiler_question; database_question])))
   < 3)%Z /\
  (forall rng fuel, generate_test courses 3 rng fuel = Pending).
Proof.
  assert (Hsets : get_question_sets courses
                  = Ret [compiler_question; database_question])
    by (vm_compute; reflexivity).
  assert (Hne : question_answers_of [compiler_question; database_question]
                <> []) by (vm_compute; discriminate).
  assert (Hfew : (Z.of_nat
                    (length
                       (distinct_questions
                          (question_answers_of
                             [compiler_question; database_question])))
                  < 3)%Z) by (vm_compute; reflexivity).
  split; [exact Hsets|]. split; [exact Hne|]. split; [exact Hfew|].
  exact (generate_test_never_ends courses 3
           [compiler_question; database_question] Hsets Hne Hfew).
Defined.

Lemma selected_question_sets_witness :
  generate_test courses 2 counting 10
  = Done ([Question compiler_question; Question database_question],
          [Answer compiler_question; Answer database_question]) /\
  exists question_sets,
    get_question_sets courses = Ret question_sets /\
    forall i q,
      nth_error [Question compiler_question; Question database_question] i
      = Some q ->
      exists r,
        In r question_sets /\ (3 < Key r)%Z /\
        selected r i
          ([Question compiler_question; Question database_question],
           [Answer compiler_question; Answer database_question]) /\
        Question r = q /\
        count_occ str_eq_dec
          [Question compiler_question; Question database_question]
          (Question r) = 1.
Proof.
  assert (Hrun : generate_test courses 2 counting 10
                 = Done ([Question compiler_question;
                          Question database_question],
                         [Answer compiler_question;
                          Answer database_question]))
    by (vm_compute; reflexivity).
  split; [exact Hrun|].
  exact (selected_question_sets courses 2 counting 10 _ Hrun).
Defined.

Lemma answer_options_bounded_witness :
  answer_options (lit "dog")
  = Ret [lit "bitch"; lit "fox"; lit "hyena"; lit "jackal"; lit "wild dog";
         lit "wolf"; lit "coyote"; lit "dingo"] /\
  (length [lit "bitch"; lit "fox"; lit "hyena"; lit "jackal"; lit "wild dog";
           lit "wolf"; lit "coyote"; lit "dingo"] <= 8 /\
   ~ In (lit "dog")
       [lit "bitch"; lit "fox"; lit "hyena"; lit "jackal"; lit "wild dog";
        lit "wolf"; lit "coyote"; lit "dingo"] /\
   (synsets (lit "dog") (lit "n") = [] ->
    [lit "bitch"; lit "fox"; lit "hyena"; lit "jackal"; lit "wild dog";
     lit "wolf"; lit "coyote"; lit "dingo"] = [])).
Proof.
  split; [vm_compute; reflexivity|].
  apply (answer_options_bounded (lit "dog")).
  vm_compute. reflexivity.
Defined.

Lemma startswith_app (w post : str) : startswith w (w ++ post) = true.
Proof.
  induction w as [|c w IH]; [reflexivity|].
  cbn [app startswith]. rewrite Ascii.eqb_refl. exact IH.
Qed.

Lemma contains_middle (w pre post : str) :
  contains w (pre ++ w ++ post) = true.
Proof.
  induction pre as [|c pre IH].
  - cbn [app]. destruct (w ++ post) as [|c x] eqn:E.
    + destruct w; [reflexivity|discriminate].
    + cbn [contains]. rewrite <- E, startswith_app. reflexivity.
  - cbn [app contains]. rewrite IH. apply orb_true_r.
Qed.

(** The folding and the white space of the characters above 127. *)
Lemma latin1_characters :
  match_ignorecase [ascii_of_nat 233] [ascii_of_nat 201] = true /\
  match_ignorecase [ascii_of_nat 247] [ascii_of_nat 215] = false /\
  isspace (ascii_of_nat 133) = true /\
  isspace (ascii_of_nat 160) = true /\
  split (lit "foo" ++ [ascii_of_nat 160] ++ lit "bar baz")
  = [lit "foo"; lit "bar"; lit "baz"].
Proof. repeat split; vm_compute; reflexivity. Qed.

(** C6, as the specification states it, fails when the words to blank do not
    stand in the sentence with exactly one space between them: here two
    spaces separate them, the words joined by one space occur nowhere in the
    sentence, and the question is the sentence itself, without any blank
    marker in it. *)
Lemma two_spaces_no_blank :
  identify_potential_questions two_spaces
  = Ret (Some {| Answer := lit "compiler design";
                 Key := 6;
                 Similar := [];
                 Question := two_spaces |}) /\
  handle_nouns (pos_tag (chars two_spaces)) (noun_phrases_of two_spaces)
  = Ret [lit "compiler"; lit "design"] /\
  (forall pre span post,
      ~ occurrence (lit "compiler design") two_spaces pre span post) /\
  contains blank two_spaces = false /\
  (forall pre post, two_spaces <> pre ++ times blank 2 ++ post).
Proof.
  assert (Hmarker : forall pre post,
             two_spaces <> pre ++ times blank 2 ++ post).
  { intros pre post H.
    assert (Hc : contains (times blank 2) two_spaces = false)
      by (vm_compute; reflexivity).
    rewrite H, contains_middle in Hc. discriminate Hc. }
  split; [vm_compute; reflexivity|]. split; [vm_compute; reflexivity|].
  split; [|split; [vm_compute; reflexivity|exact Hmarker]].
  destruct (sub_ignorecase_once_spec (lit "compiler design") (times blank 2)
              two_spaces)
    as [(pre & span & post & _ & Hsub)|[Hnone _]]; [|exact Hnone].
  exfalso. apply (Hmarker pre post). rewrite <- Hsub.
  vm_compute. reflexivity.
Qed.

Lemma question_blanks_first_occurrence_witness :
  identify_potential_questions capitals_first
  = Ret (Some capitals_first_question) /\
  exists replace_nouns,
    handle_nouns (pos_tag (chars capitals_first))
      (noun_phrases_of capitals_first) = Ret replace_nouns /\
    Answer capitals_first_question = join (lit " ") replace_nouns /\
    Question capitals_first_question =
    sub_ignorecase_once (Answer capitals_first_question)
      (concat (repeat (lit "__________") (length replace_nouns)))
      capitals_first /\
    ((exists pre span post,
         occurrence (Answer capitals_first_question) capitals_first
           pre span post) ->
     exists pre span post,
       first_occurrence (Answer capitals_first_question) capitals_first
         pre span post /\
       Question capitals_first_question =
       pre ++ concat (repeat (lit "__________") (length replace_nouns))
           ++ post /\
       same_ignorecase (pre ++ Answer capitals_first_question ++ post)
         capitals_first) /\
    ((forall pre span post,
         ~ occurrence (Answer capitals_first_question) capitals_first
             pre span post) ->
     Question capitals_first_question = capitals_first).
Proof.
  assert (Hrun : identify_potential_questions capitals_first
                 = Ret (Some capitals_first_question))
    by (vm_compute; reflexivity).
  split; [exact Hrun|].
  exact (question_blanks_first_occurrence capitals_first
           capitals_first_question Hrun).
Defined.

(** The occurrence replaced in this sentence is the one in capitals, which
    comes first. *)
Lemma capitals_first_occurrence :
  occurrence (lit "solar panels") capitals_first
    (lit "some ") (lit "SOLAR PANELS") (lit " beat solar panels") /\
  Question capitals_first_question
  = lit "some " ++ times blank 2 ++ lit " beat solar panels".
Proof. repeat split; vm_compute; reflexivity. Qed.

(** C7 at a sentence whose first word is an adverb.  Line 102 hands the
    sentence itself to the tagger, which tags it character by character, so
    that the test of line 103 reads the tag of the letter Q; the sentence has
    five words, and a question set is returned for it. *)
Theorem adverb_first_not_skipped :
  hd_error (pos_tag (word_tokenize adverb_first))
  = Some (lit "Quickly", lit "RB") /\
  length (word_tokenize adverb_first) = 5 /\
  hd_error (pos_tag (chars adverb_first)) = Some (lit "Q", lit "NN") /\
  identify_potential_questions adverb_first
  = Ret (Some adverb_first_question).
Proof. repeat split; vm_compute; reflexivity. Qed.

Lemma answer_options_no_hypernym_witness :
  synsets (lit "Entity") (lit "n") = [lit "entity"] /\
  hypernyms (lit "entity") = [] /\
  answer_options (lit "Entity") = Raise IndexError /\
  identify_potential_questions top_sense = Raise IndexError /\
  (forall num_questions rng fuel,
      generate_test top_sense_corpus num_questions rng fuel
      = Fail IndexError).
Proof.
  assert (Hsyn : synsets (lit "Entity") (lit "n") = [lit "entity"])
    by (vm_compute; reflexivity).
  assert (Hhyp : hypernyms (lit "entity") = []) by (vm_compute; reflexivity).
  destruct (answer_options_no_hypernym (lit "Entity") _ _ Hsyn Hhyp)
    as [Hraise Hup].
  assert (Htags : pos_tag (chars top_sense)
                  = (lit "E", lit "NN") :: tl (pos_tag (chars top_sense)))
    by (vm_compute; reflexivity).
  assert (Hrb : str_eqb (snd (lit "E", lit "NN")) (lit "RB") = false)
    by (vm_compute; reflexivity).
  assert (H4 : 4 <= length (word_tokenize top_sense))
    by (vm_compute; repeat constructor).
  assert (Hh : handle_nouns
                 ((lit "E", lit "NN") :: tl (pos_tag (chars top_sense)))
                 (noun_phrases_of top_sense) = Ret [lit "Entity"])
    by (vm_compute; reflexivity).
  destruct (Hup top_sense (lit "E", lit "NN") (tl (pos_tag (chars top_sense)))
              Htags Hrb H4 Hh) as [Hipq Htest].
  split; [exact Hsyn|]. split; [exact Hhyp|]. split; [exact Hraise|].
  split; [exact Hipq|].
  intros num_questions rng fuel.
  apply (Htest top_sense_corpus
           (lit "compiler design lectures cover parsing theory. Entity names one thing.")
           [compiler_sentence] [] num_questions rng fuel).
  - reflexivity.
  - vm_compute. reflexivity.
  - constructor; [|constructor].
    exists (Some compiler_question). vm_compute. reflexivity.
Defined.

(** C9, as the specification states it, fails when every word to blank has
    more than 99 characters: the key stays at the 99 the computation starts
    from. *)
Lemma long_words_key :
  identify_potential_questions long_words
  = Ret (Some {| Answer := long_word ++ lit " " ++ long_word;
                 Key := 99;
                 Similar := [];
                 Question := times blank 2 ++ lit " names one thing" |}) /\
  handle_nouns (pos_tag (chars long_words)) (noun_phrases_of long_words)
  = Ret [long_word; long_word] /\
  minimum_length long_word [long_word] = 100%Z /\
  99%Z <> minimum_length long_word [long_word].
Proof.
  split; [vm_compute; reflexivity|].
  split; [vm_compute; reflexivity|].
  split; [vm_compute; reflexivity|].
  vm_compute. discriminate.
Qed.

Lemma key_capped_minimum_witness :
  identify_potential_questions compiler_sentence
  = Ret (Some compiler_question) /\
  exists w ws,
    handle_nouns (pos_tag (chars compiler_sentence))
      (noun_phrases_of compiler_sentence) = Ret (w :: ws) /\
    Key compiler_question = Z.min 99 (minimum_length w ws).
Proof.
  assert (Hrun : identify_potential_questions compiler_sentence
                 = Ret (Some compiler_question)) by (vm_compute; reflexivity).
  split; [exact Hrun|].
  exact (key_capped_minimum compiler_sentence compiler_question Hrun).
Defined.

(** C10, as the specification states it, fails for a corpus on which the
    derivation of the question sets raises: line 48 runs before the number
    of questions is looked at, and the call for zero questions raises instead
    of returning two empty sequences. *)
Lemma generate_test_zero_raises :
  get_question_sets top_sense_corpus = Raise IndexError /\
  generate_test top_sense_corpus 0 counting 5 = Fail IndexError /\
  generate_test top_sense_corpus 0 counting 5 <> Done ([], []).
Proof.
  split; [vm_compute; reflexivity|]. split; [vm_compute; reflexivity|].
  vm_compute. discriminate.
Qed.

Lemma generate_test_edge_cases_witness :
  (get_question_sets one_letter = Ret [one_letter_question] /\
   (1 <= 1)%Z /\
   question_answers_of [one_letter_question] = [] /\
   generate_test one_letter 1 counting 1 = Fail ValueError) /\
  (get_question_sets courses = Ret [compiler_question; database_question] /\
   (0 <= 0)%Z /\
   generate_test courses 0 counting 0 = Done ([], []) /\
   forall question_answers rng' fuel' k,
     sampling fuel' 0 question_answers rng' k [] [] = Done ([], [])).
Proof.
  assert (Hone : get_question_sets one_letter = Ret [one_letter_question])
    by (vm_compute; reflexivity).
  assert (Hcourses : get_question_sets courses
                     = Ret [compiler_question; database_question])
    by (vm_compute; reflexivity).
  assert (Hnone : question_answers_of [one_letter_question] = [])
    by (vm_compute; reflexivity).
  split.
  - split; [exact Hone|]. split; [lia|]. split; [exact Hnone|].
    exact (proj1 (generate_test_edge_cases one_letter 1
                    [one_letter_question] counting 0 Hone)
             (Z.le_refl 1) Hnone).
  - split; [exact Hcourses|]. split; [lia|].
    exact (proj2 (generate_test_edge_cases courses 0
                    [compiler_question; database_question] counting 0
                    Hcourses)
             (Z.le_refl 0)).
Defined.

End Runs.

(** ** Loading and collecting *)

Section Collecting.

Context {annotator : Annotator} {hierarchy : Hierarchy}.



Lemma collect_outcomes (sentences : list str)
    (outcomes : list (option question_set)) :
  Forall2 (fun s o => identify_potential_questions s = Ret o)
    sentences outcomes ->
  forall question_sets,
    for_each question_step sentences question_sets
    = Ret (question_sets ++ records_of outcomes).
Proof.
  induction 1 as [|s o sentences outcomes Hs _ IH]; intros question_sets.
  - simpl. rewrite app_nil_r. reflexivity.
  - cbn [for_each]. unfold question_step at 1. rewrite Hs. cbn [bind].
    destruct o as [q|]; rewrite IH; cbn [records_of flat_map].
    + rewrite <- app_assoc. reflexivity.
    + reflexivity.
Qed.

Lemma collect_first_raise (before : list str) (sentence : str)
    (after : list str) (outcomes : list (option question_set)) (e : exn) :
  Forall2 (fun s o => identify_potential_questions s = Ret o)
    before outcomes ->
  identify_potential_questions sentence = Raise e ->
  forall question_sets,
    for_each question_step (before ++ sentence :: after) question_sets
    = Raise e.
Proof.
  intros Hbefore Hraise.
  induction Hbefore as [|s o before outcomes Hs _ IH]; intros question_sets.
  - cbn [app for_each]. unfold question_step. rewrite Hraise. reflexivity.
  - cbn [app for_each]. unfold question_step at 1. rewrite Hs. cbn [bind].
    destruct o; apply IH.
Qed.

Lemma records_of_length (outcomes : list (option question_set)) :
  length (records_of outcomes) <= length outcomes.
Proof.
  induction outcomes as [|o outcomes IH]; simpl; [lia|].
  destruct o; simpl; lia.
Qed.

Lemma records_of_In (outcomes : list (option question_set))
    (r : question_set) :
  In r (records_of outcomes) <-> In (Some r) outcomes.
Proof.
  unfold records_of. rewrite in_flat_map. split.
  - intros (o & Ho & Hr). destruct o as [q|]; [|destruct Hr].
    destruct Hr as [<-|[]]. exact Ho.
  - intros H. exists (Some r). split; [exact H|left; reflexivity].
Qed.


(** X3. The candidates of a corpus are the question sets of its sentences, one at
    most for each sentence and in the order of the sentences; a sentence on
    which the blank selector raises makes the whole collection raise the same
    exception, and the question sets gathered before it are lost. *)
Theorem get_question_sets_in_order (self : ObjectiveTest) (text : str)
    (sentences : list str) :
  summary self = Some text ->
  sent_tokenize text = Some sentences ->
  (forall outcomes,
      Forall2 (fun s o => identify_potential_questions s = Ret o)
        sentences outcomes ->
      get_question_sets self = Ret (records_of outcomes) /\
      length (records_of outcomes) <= length sentences /\
      forall r,
        In r (records_of outcomes) ->
        exists s, In s sentences /\
                  identify_potential_questions s = Ret (Some r)) /\
  (forall before sentence after outcomes e,
      sentences = before ++ sentence :: after ->
      Forall2 (fun s o => identify_potential_questions s = Ret o)
        before outcomes ->
      identify_potential_questions sentence = Raise e ->
      get_question_sets self = Raise e).
Proof.
  intros Hsum Hsplit. unfold get_question_sets. rewrite Hsum, Hsplit. split.
  - intros outcomes Hall. split; [|split].
    + rewrite (collect_outcomes _ _ Hall). reflexivity.
    + rewrite (Forall2_length Hall). apply records_of_length.
    + intros r Hr. apply records_of_In in Hr.
      clear Hsplit. induction Hall as [|s o ss os Hs _ IH]; [destruct Hr|].
      destruct Hr as [->|Hr].
      * exists s. split; [left; reflexivity|exact Hs].
      * destruct (IH Hr) as (s' & Hin & Hs').
        exists s'. split; [right; exact Hin|exact Hs'].
  - intros before sentence after outcomes e -> Hbefore Hraise.
    apply (collect_first_raise _ _ _ _ _ Hbefore Hraise).
Qed.


End Collecting.

(** ** Words and phrases *)

Section Words.

Lemma split_from_word (w : str) :
  Forall (fun c => isspace c = false) w ->
  forall cur rest, split_from cur (w ++ rest) = split_from (cur ++ w) rest.
Proof.
  induction 1 as [|c w Hc _ IH]; intros cur rest.
  - rewrite app_nil_r. reflexivity.
  - cbn [app split_from]. rewrite Hc, IH, <- app_assoc. reflexivity.
Qed.

(** Splitting the words joined by single spaces gives the words back. *)
Lemma split_join (ws : list str) :
  Forall word_like ws -> split (join (lit " ") ws) = ws.
Proof.
  unfold split. change (lit " ") with [" "%char].
  induction 1 as [|w ws [Hne Hw] Hws IH]; [reflexivity|].
  cbn [join]. destruct ws as [|w2 ws].
  - rewrite <- (app_nil_r w) at 1. rewrite (split_from_word w Hw).
    cbn [app split_from]. destruct w; [congruence|reflexivity].
  - rewrite (split_from_word w Hw). cbn [app split_from].
    change (isspace " "%char) with true. cbn iota.
    destruct w as [|c w]; [congruence|]. rewrite IH. reflexivity.
Qed.

Lemma chunk_fold (leaves : list tagged) (temp : str) :
  fold_left (fun temp sub => (temp ++ fst sub) ++ lit " ") leaves temp =
  temp ++ concat (map (fun sub => fst sub ++ lit " ") leaves).
Proof.
  revert temp. induction leaves as [|sub leaves IH]; intros temp; simpl.
  - rewrite app_nil_r. reflexivity.
  - rewrite IH, <- !app_assoc. reflexivity.
Qed.

Lemma concat_join (ws : list str) :
  ws <> [] ->
  concat (map (fun w => w ++ lit " ") ws) = join (lit " ") ws ++ lit " ".
Proof.
  induction ws as [|w ws IH]; [congruence|]. intros _.
  cbn [map concat join]. destruct ws as [|w2 ws].
  - simpl. rewrite app_nil_r. reflexivity.
  - rewrite IH by discriminate. rewrite <- !app_assoc. reflexivity.
Qed.

Lemma word_like_last (w : str) :
  word_like w -> exists y c, w = y ++ [c] /\ isspace c = false.
Proof.
  intros [Hne Hw]. destruct (exists_last Hne) as (y & c & ->).
  exists y, c. split; [reflexivity|].
  rewrite Forall_forall in Hw. apply Hw, in_or_app. right. left. reflexivity.
Qed.

Lemma join_last (ws : list str) :
  Forall word_like ws -> ws <> [] ->
  exists y c, join (lit " ") ws = y ++ [c] /\ isspace c = false.
Proof.
  induction 1 as [|w ws Hw Hws IH]; [congruence|]. intros _.
  cbn [join]. destruct ws as [|w2 ws].
  - apply word_like_last, Hw.
  - destruct IH as (y & c & Hj & Hc); [discriminate|].
    exists (w ++ lit " " ++ y), c. split; [|exact Hc].
    rewrite Hj, <- !app_assoc. reflexivity.
Qed.

Lemma join_first (ws : list str) :
  Forall word_like ws -> ws <> [] ->
  exists c x, join (lit " ") ws = c :: x /\ isspace c = false.
Proof.
  intros Hws Hne. destruct ws as [|w ws]; [congruence|].
  inversion Hws as [|? ? [Hwne Hw] _]; subst.
  destruct w as [|c w]; [congruence|].
  inversion Hw; subst. cbn [join].
  destruct ws; eexists c, _; (split; [reflexivity|assumption]).
Qed.

Lemma strip_trailing_space (x : str) :
  (exists y c, x = y ++ [c] /\ isspace c = false) ->
  (exists c x', x = c :: x' /\ isspace c = false) ->
  strip (x ++ lit " ") = x.
Proof.
  intros (y & c & Hx & Hc) (c0 & x' & Hx0 & Hc0).
  unfold strip, rstrip.
  assert (Hr : lstrip (rev (x ++ lit " ")) = rev x).
  { rewrite rev_app_distr. change (rev (lit " ")) with [" "%char].
    cbn [app lstrip]. change (isspace " "%char) with true. cbn iota.
    rewrite Hx, rev_app_distr. cbn [rev app lstrip]. rewrite Hc.
    reflexivity. }
  rewrite Hr, rev_involutive, Hx0. cbn [lstrip]. rewrite Hc0. reflexivity.
Qed.

(** The text of a chunk whose tokens are words is these words joined by
    single spaces, and splitting it gives the words back. *)
Lemma chunk_text_join (leaves : list tagged) :
  Forall word_like (map fst leaves) ->
  chunk_text leaves = join (lit " ") (map fst leaves) /\
  split (chunk_text leaves) = map fst leaves.
Proof.
  intros Hws.
  assert (Htext : chunk_text leaves = join (lit " ") (map fst leaves)).
  { unfold chunk_text. rewrite chunk_fold. cbn [app].
    destruct leaves as [|sub leaves]; [reflexivity|].
    replace (concat (map (fun sub0 => fst sub0 ++ lit " ") (sub :: leaves)))
      with (concat (map (fun w => w ++ lit " ") (map fst (sub :: leaves))))
      by (rewrite map_map; reflexivity).
    rewrite concat_join by discriminate.
    apply strip_trailing_space.
    - apply join_last; [exact Hws|discriminate].
    - apply join_first; [exact Hws|discriminate]. }
  split; [exact Htext|]. rewrite Htext. apply split_join, Hws.
Qed.

End Words.

(** ** More on the blank selector *)

Section Records.

Context {annotator : Annotator} {hierarchy : Hierarchy}.

Lemma last_two_length (A : Type) (l : list A) : length (last_two l) <= 2.
Proof. unfold last_two. rewrite length_skipn. lia. Qed.

Lemma last_two_In (A : Type) (l : list A) (x : A) :
  In x (last_two l) -> In x l.
Proof.
  unfold last_two. intros H.
  rewrite <- (firstn_skipn (length l - 2) l). apply in_or_app. right. exact H.
Qed.

(** The scan of the phrases adds nothing, or the last two words of one
    phrase. *)
Lemma scan_result (word : str) (noun_phrases : list str) :
  forall replace_nouns found,
    for_each (phrase_step word) noun_phrases replace_nouns = Ret found ->
    found = replace_nouns \/
    exists phrase,
      In phrase noun_phrases /\
      found = replace_nouns ++ last_two (split phrase).
Proof.
  induction noun_phrases as [|phrase noun_phrases IH];
    intros replace_nouns found H.
  - injection H as <-. left. reflexivity.
  - cbn [for_each] in H. unfold phrase_step at 1 in H.
    destruct phrase as [|c phrase']; [discriminate|].
    destruct (Ascii.eqb c "'"%char).
    { injection H as <-. left. reflexivity. }
    destruct (contains word (c :: phrase')).
    { injection H as <-. right. exists (c :: phrase').
      split; [left; reflexivity|reflexivity]. }
    destruct (IH _ _ H) as [->|(p & Hp & ->)]; [left; reflexivity|].
    right. exists p. split; [right; exact Hp|reflexivity].
Qed.

(** One or two words are blanked, never none. *)
Lemma handle_nouns_count (tag0 : tagged) (tags : list tagged)
    (noun_phrases replace_nouns : list str) :
  handle_nouns (tag0 :: tags) noun_phrases = Ret replace_nouns ->
  length replace_nouns = 1 \/ length replace_nouns = 2.
Proof.
  rewrite handle_nouns_head. unfold bind.
  destruct (for_each (phrase_step (fst tag0)) noun_phrases []) as [found|e]
    eqn:Hscan; [|discriminate].
  intros H. injection H as <-.
  destruct (scan_result _ _ _ _ Hscan) as [->|(p & _ & ->)].
  - left. reflexivity.
  - cbn [app]. pose proof (last_two_length _ (split p)) as Hlen.
    destruct (last_two (split p)) as [|w1 [|w2 ws]]; cbn [length] in *.
    + left. reflexivity.
    + left. reflexivity.
    + right. cbn [Nat.eqb]. cbn [length]. lia.
Qed.

Lemma shortest_bounds (ws : list str) :
  (0 <= shortest ws <= 99)%Z /\
  Forall (fun w => (shortest ws <= len w)%Z) ws.
Proof.
  unfold shortest. rewrite shortest_fold.
  induction ws as [|w ws [IHb IHw]]; cbn [fold_right].
  - split; [lia|constructor].
  - assert (Hlen : (0 <= len w)%Z) by (unfold len; lia).
    split; [lia|]. constructor; [lia|].
    apply Forall_impl with (2 := IHw). intros; lia.
Qed.

(** What a returned question set was built from, distractors included. *)
Lemma identify_potential_questions_similar (sentence : str)
    (r : question_set) :
  identify_potential_questions sentence = Ret (Some r) ->
  exists tag0 tags replace_nouns,
    pos_tag (chars sentence) = tag0 :: tags /\
    handle_nouns (tag0 :: tags) (noun_phrases_of sentence)
      = Ret replace_nouns /\
    Answer r = join (lit " ") replace_nouns /\
    Key r = shortest replace_nouns /\
    Question r =
      sub_ignorecase_once (join (lit " ") replace_nouns)
        (times blank (length replace_nouns)) sentence /\
    ((exists w, replace_nouns = [w] /\ answer_options w = Ret (Similar r)) \/
     (length replace_nouns = 2 /\ Similar r = [])).
Proof.
  unfold identify_potential_questions. intros H.
  destruct (pos_tag (chars sentence)) as [|tag0 tags] eqn:Et; [discriminate|].
  destruct (str_eqb (snd tag0) (lit "RB")); [discriminate|].
  destruct (length (word_tokenize sentence) <? 4); [discriminate|].
  cbn [orb] in H. unfold bind at 1 in H.
  destruct (handle_nouns (tag0 :: tags) (noun_phrases_of sentence))
    as [replace_nouns|e] eqn:Eh; [|discriminate].
  exists tag0, tags, replace_nouns.
  destruct (handle_nouns_count _ _ _ _ Eh) as [H1|H2].
  - destruct replace_nouns as [|w [|w2 ws]]; try discriminate H1.
    cbn [length Nat.eqb getitem] in H. unfold getitem in H.
    cbn [Z.to_nat nth_error bind] in H.
    destruct (answer_options w) as [similar|e] eqn:Ea; [|discriminate].
    cbn [bind] in H. injection H as <-. cbn [Answer Key Question Similar].
    rewrite strip_times_blank.
    split; [reflexivity|]. split; [exact Eh|]. do 3 (split; [reflexivity|]).
    left. exists w. split; [reflexivity|exact Ea].
  - destruct replace_nouns as [|w [|w2 [|w3 ws]]]; try discriminate H2.
    cbn [length Nat.eqb bind] in H. injection H as <-.
    cbn [Answer Key Question Similar]. rewrite strip_times_blank.
    split; [reflexivity|]. split; [exact Eh|]. do 3 (split; [reflexivity|]).
    right. split; reflexivity.
Qed.

Lemma answer_options_sound (word : str) (similar : list str) :
  answer_options word = Ret similar ->
  length similar <= 8 /\ ~ In word similar.
Proof.
  unfold answer_options. intros Hrun.
  destruct (synsets word (lit "n")) as [|synset0 others].
  - injection Hrun as <-. split; [simpl; lia|intros []].
  - destruct (hypernyms synset0) as [|hypernym hs]; [discriminate|].
    apply (similar_loop_bounded _ _ _ _ Hrun); [simpl; lia|intros []].
Qed.

End Records.

Section RecordProperties.

Context {annotator : Annotator} {hierarchy : Hierarchy}.

(** X4. The blank selector returns None for a sentence exactly when the filter of
    lines 103-104 rejects it: the first tag is RB, or there are fewer than 4
    word tokens.  The test of lines 147-148 never succeeds, since the scan
    of the tags leaves at least one word to blank. *)
Theorem none_only_when_filtered (sentence : str) :
  identify_potential_questions sentence = Ret None <->
  exists tag0 tags,
    pos_tag (chars sentence) = tag0 :: tags /\
    (snd tag0 = lit "RB" \/ length (word_tokenize sentence) < 4).
Proof.
  split.
  - unfold identify_potential_questions. intros H.
    destruct (pos_tag (chars sentence)) as [|tag0 tags] eqn:Et;
      [discriminate|].
    exists tag0, tags. split; [reflexivity|].
    destruct (str_eqb (snd tag0) (lit "RB")) eqn:Erb.
    { left. apply str_eqb_true. exact Erb. }
    destruct (length (word_tokenize sentence) <? 4) eqn:E4.
    { right. apply Nat.ltb_lt. exact E4. }
    exfalso. cbn [orb] in H. unfold bind at 1 in H.
    destruct (handle_nouns (tag0 :: tags) (noun_phrases_of sentence))
      as [replace_nouns|e] eqn:Eh; [|discriminate].
    destruct (handle_nouns_count _ _ _ _ Eh) as [H1|H2].
    + destruct replace_nouns as [|w [|w2 ws]]; try discriminate H1.
      cbn [length Nat.eqb] in H. unfold getitem in H.
      cbn [Z.to_nat nth_error bind] in H.
      destruct (answer_options w); discriminate.
    + destruct replace_nouns as [|w [|w2 [|w3 ws]]]; try discriminate H2.
      discriminate.
  - intros (tag0 & tags & Et & Hf). apply (eligibility_filter _ _ _ Et Hf).
Qed.

(** X5. Every question set blanks one or two words; its answer is these words
    joined by a space; its key lies between 0 and 99 and is not above the
    length of any blanked word. *)
Theorem question_set_shape (sentence : str) (r : question_set) :
  identify_potential_questions sentence = Ret (Some r) ->
  exists replace_nouns,
    handle_nouns (pos_tag (chars sentence)) (noun_phrases_of sentence)
    = Ret replace_nouns /\
    (length replace_nouns = 1 \/ length replace_nouns = 2) /\
    Answer r = join (lit " ") replace_nouns /\
    (0 <= Key r <= 99)%Z /\
    Forall (fun w => (Key r <= len w)%Z) replace_nouns.
Proof.
  intros Hr.
  destruct (identify_potential_questions_similar _ _ Hr)
    as (tag0 & tags & replace_nouns & Et & Eh & Ha & Hk & _ & _).
  exists replace_nouns. rewrite Et, Hk.
  split; [exact Eh|]. split; [apply (handle_nouns_count _ _ _ _ Eh)|].
  split; [exact Ha|]. apply shortest_bounds.
Qed.

(** X6. In every question set the distractors are at most 8 and the answer is
    not among them; a question set that blanks two words has none. *)
Theorem question_set_distractors (sentence : str) (r : question_set) :
  identify_potential_questions sentence = Ret (Some r) ->
  length (Similar r) <= 8 /\
  ~ In (Answer r) (Similar r) /\
  (forall w1 w2,
      handle_nouns (pos_tag (chars sentence)) (noun_phrases_of sentence)
      = Ret [w1; w2] ->
      Similar r = []).
Proof.
  intros Hr.
  destruct (identify_potential_questions_similar _ _ Hr)
    as (tag0 & tags & replace_nouns & Et & Eh & Ha & _ & _ & Hs).
  rewrite Et, Eh, Ha.
  destruct Hs as [(w & -> & Hopt)|[H2 ->]].
  - destruct (answer_options_sound _ _ Hopt) as [Hlen Hnot].
    cbn [join]. split; [exact Hlen|]. split; [exact Hnot|].
    intros w1 w2 H. discriminate H.
  - split; [simpl; lia|]. split; [intros []|]. reflexivity.
Qed.

(** X7. When the tagger pairs the first character of the sentence with its tag
    and no noun phrase is hit by that character, the question set blanks this
    single character: the answer is the character, the key is 1, the question
    is the blank marker followed by the rest of the sentence, and the filter
    of [generate_test] on the key discards the question set. *)
Theorem first_character_blanked (sentence rest : str) (c : ascii) (t : str)
    (tags : list tagged) (r : question_set) :
  sentence = c :: rest ->
  pos_tag (chars sentence) = ([c], t) :: tags ->
  Forall (passed [c]) (noun_phrases_of sentence) ->
  identify_potential_questions sentence = Ret (Some r) ->
  Answer r = [c] /\
  Key r = 1%Z /\
  Question r = blank ++ rest /\
  question_answers_of [r] = [].
Proof.
  intros Hs Ht Hpassed Hr.
  destruct (identify_potential_questions_similar _ _ Hr)
    as (tag0 & tags' & replace_nouns & Et & Eh & Ha & Hk & Hq & _).
  rewrite Ht in Et. injection Et as <- <-.
  assert (Hwords : replace_nouns = [[c]]).
  { rewrite handle_nouns_head in Eh. cbn [fst] in Eh.
    rewrite <- (app_nil_r (noun_phrases_of sentence)) in Eh.
    rewrite (scan_passed _ _ _ _ Hpassed) in Eh. cbn in Eh.
    injection Eh as <-. reflexivity. }
  subst replace_nouns.
  assert (Hkey : Key r = 1%Z) by (rewrite Hk; reflexivity).
  split; [rewrite Ha; reflexivity|]. split; [exact Hkey|]. split.
  - rewrite Hq, Hs. cbn [join length sub_ignorecase_once match_ignorecase].
    rewrite Ascii.eqb_refl. cbn [andb skipn times repeat concat].
    rewrite app_nil_r. reflexivity.
  - unfold question_answers_of. cbn [filter]. rewrite Hkey. reflexivity.
Qed.

(** X8. The phrase of a chunk whose tokens are words is these words joined by
    single spaces; when the scan stops at this phrase because it contains
    the word looked for, the words appended to the words to blank are those
    of the last two tokens of the chunk. *)
Theorem chunk_last_two_tokens (word : str) (leaves : list tagged)
    (replace_nouns : list str) :
  Forall word_like (map fst leaves) ->
  leaves <> [] ->
  leading_apostrophe (chunk_text leaves) = false ->
  contains word (chunk_text leaves) = true ->
  chunk_text leaves = join (lit " ") (map fst leaves) /\
  phrase_step word (chunk_text leaves) replace_nouns
  = Ret (Break (replace_nouns ++ last_two (map fst leaves))).
Proof.
  intros Hws Hne Hap Hin.
  destruct (chunk_text_join _ Hws) as [Htext Hsplit].
  split; [exact Htext|].
  rewrite phrase_step_hit; [rewrite Hsplit; reflexivity| |exact Hap|exact Hin].
  rewrite Htext.
  destruct (join_first (map fst leaves) Hws) as (c0 & x & -> & _);
    [destruct leaves; [congruence|discriminate]|discriminate].
Qed.

End RecordProperties.

(** ** More on the distractor generator *)

Section DistractorOrder.

Context {hierarchy : Hierarchy}.

Lemma replace_underscore_fuel (n : nat) :
  forall s,
    length s <= n ->
    replace_fuel n ["_"%char] [" "%char] s = map underscore_to_space s.
Proof.
  induction n as [|n IH]; intros s Hlen.
  - destruct s; [reflexivity|simpl in Hlen; lia].
  - destruct s as [|c s]; [reflexivity|].
    cbn [replace_fuel startswith map length skipn app].
    unfold underscore_to_space at 1.
    simpl in Hlen. rewrite andb_true_r.
    destruct (Ascii.eqb "_"%char c); rewrite IH by lia; reflexivity.
Qed.

(** Line 205: every underscore of the name becomes a space. *)
Lemma replace_underscore (s : str) :
  replace (lit "_") (lit " ") s = map underscore_to_space s.
Proof. apply replace_underscore_fuel. apply le_n. Qed.

Lemma similar_loop_firstn (word : str) (candidates : list synset)
    (names : list str) :
  Forall2 first_name candidates names ->
  forall similar_words,
    length similar_words < 8 ->
    for_each (similar_step word) candidates similar_words
    = Ret (firstn 8
             (similar_words ++
              filter (fun w => negb (str_eqb w word))
                (map (map underscore_to_space) names))).
Proof.
  induction 1 as [|hyponym n candidates names (l & ls & Hl & Hn) _ IH];
    intros similar_words Hlen.
  - cbn [for_each map filter]. rewrite app_nil_r, firstn_all2 by lia.
    reflexivity.
  - cbn [for_each map filter]. unfold similar_step at 1.
    rewrite Hl, replace_underscore, Hn.
    set (x := map underscore_to_space n).
    set (rest := filter (fun w => negb (str_eqb w word))
                   (map (map underscore_to_space) names)).
    destruct (str_eqb x word) eqn:Eq; cbn [negb]; cbv beta iota zeta;
      unfold str in *.
    + destruct (Nat.eqb_spec (length similar_words) 8); [lia|].
      apply IH. exact Hlen.
    + destruct (Nat.eqb_spec (length (similar_words ++ [x])) 8) as [E8|E8].
      * assert (Hcut : firstn 8 (similar_words ++ x :: rest)
                       = similar_words ++ [x]).
        { change (x :: rest) with ([x] ++ rest).
          rewrite app_assoc, <- E8, firstn_app, firstn_all, Nat.sub_diag.
          cbn [firstn]. apply app_nil_r. }
        rewrite Hcut. reflexivity.
      * rewrite length_app in E8. cbn [length] in E8.
        rewrite IH by (rewrite length_app; cbn [length]; lia).
        rewrite <- app_assoc. reflexivity.
Qed.

(** X9. The distractors of a word are the names of the hyponyms of the first
    hypernym of its first noun synset, with spaces for underscores, in the
    order of the hierarchy, without the names equal to the word, cut after
    the eighth; a name that occurs twice is kept twice. *)
Theorem answer_options_first_eight (word : str) (synset0 : synset)
    (others : list synset) (hypernym : synset) (others' : list synset)
    (names : list str) :
  synsets word (lit "n") = synset0 :: others ->
  hypernyms synset0 = hypernym :: others' ->
  Forall2 first_name (hyponyms hypernym) names ->
  answer_options word
  = Ret (firstn 8
           (filter (fun w => negb (str_eqb w word))
              (map (map underscore_to_space) names))).
Proof.
  intros Hsyn Hhyp Hnames. unfold answer_options. rewrite Hsyn, Hhyp.
  rewrite (similar_loop_firstn word _ _ Hnames []); [reflexivity|].
  cbn [length]. lia.
Qed.

End DistractorOrder.

(** ** More on the test assembler *)

Section Returning.

Context {annotator : Annotator} {hierarchy : Hierarchy}.

Ltac loop_test :=
  match goal with
  | |- context [(Z.of_nat (length ?qs) <? ?n)%Z] =>
      destruct (Z.ltb_spec (Z.of_nat (length qs)) n)
  end.

(** One iteration, with the index it draws. *)
Lemma sampling_iteration_at (fuel : nat) (num_questions : Z)
    (question_answers : list question_set) (rng : nat -> Z) (k : nat)
    (questions answers : list str) :
  (Z.of_nat (length questions) < num_questions)%Z ->
  question_answers <> [] ->
  exists chosen,
    nth_error question_answers
      (Z.to_nat (rng k mod Z.of_nat (length question_answers)))
    = Some chosen /\
    sampling (S fuel) num_questions question_answers rng k questions answers =
    if in_dec str_eq_dec (Question chosen) questions
    then sampling fuel num_questions question_answers rng (S k)
           questions answers
    else sampling fuel num_questions question_answers rng (S k)
           (questions ++ [Question chosen]) (answers ++ [Answer chosen]).
Proof.
  intros Hlt Hne. cbn [sampling]. loop_test; [|lia].
  assert (Hn : (0 < Z.of_nat (length question_answers))%Z).
  { destruct question_answers; [congruence|]. cbn [length]. lia. }
  unfold randint. destruct (Z.leb_spec (Z.of_nat (length question_answers)) 0);
    [lia|].
  rewrite Z.sub_0_r, Z.add_0_l. unfold getitem.
  pose proof (Z.mod_pos_bound (rng k) _ Hn) as Hb.
  destruct (nth_error question_answers
              (Z.to_nat (rng k mod Z.of_nat (length question_answers))))
    as [chosen|] eqn:E.
  - exists chosen. split; reflexivity.
  - apply nth_error_None in E. lia.
Qed.

(** When every question set is either already collected or drawn during the
    iterations allowed, and enough distinct questions exist, the loop
    returns. *)
Lemma sampling_returns (num_questions : Z)
    (question_answers : list question_set) (rng : nat -> Z) :
  (num_questions
   <= Z.of_nat (length (distinct_questions question_answers)))%Z ->
  forall fuel k questions answers,
    drawn_from question_answers questions answers ->
    (forall i r,
        nth_error question_answers i = Some r ->
        In (Question r) questions \/
        exists j,
          k <= j < k + fuel /\
          Z.to_nat (rng j mod Z.of_nat (length question_answers)) = i) ->
    exists test,
      sampling fuel num_questions question_answers rng k questions answers
      = Done test.
Proof.
  intros Henough. induction fuel as [|fuel IH];
    intros k questions answers Hinv Hcover.
  - cbn [sampling]. loop_test; [|eexists; reflexivity].
    exfalso.
    assert (Hall : incl (distinct_questions question_answers) questions).
    { intros q Hq. unfold distinct_questions in Hq.
      apply nodup_In, in_map_iff in Hq as (r & <- & Hr).
      destruct (In_nth_error _ _ Hr) as [i Hi].
      destruct (Hcover i r Hi) as [Hin|(j & Hj & _)]; [exact Hin|lia]. }
    apply NoDup_incl_length in Hall; [lia|apply NoDup_nodup].
  - destruct (Z.ltb_spec (Z.of_nat (length questions)) num_questions)
      as [Hlt|Hge].
    + assert (Hne : question_answers <> []).
      { intros ->. cbn in Henough. lia. }
      destruct (sampling_iteration_at fuel num_questions question_answers rng
                  k questions answers Hlt Hne) as (chosen & Hnth & ->).
      destruct (in_dec str_eq_dec (Question chosen) questions) as [Hold|Hnew].
      * apply IH; [exact Hinv|]. intros i r Hi.
        destruct (Hcover i r Hi) as [Hin|(j & Hj & Hdraw)]; [left; exact Hin|].
        destruct (Nat.eq_dec j k) as [->|Hjk].
        -- left. rewrite Hdraw, Hi in Hnth. injection Hnth as ->. exact Hold.
        -- right. exists j. split; [lia|exact Hdraw].
      * apply IH.
        -- apply drawn_from_append; [exact Hinv| |exact Hnew].
           apply nth_error_In with (1 := Hnth).
        -- intros i r Hi.
           destruct (Hcover i r Hi) as [Hin|(j & Hj & Hdraw)].
           ++ left. apply in_or_app. left. exact Hin.
           ++ destruct (Nat.eq_dec j k) as [->|Hjk].
              ** left. rewrite Hdraw, Hi in Hnth. injection Hnth as ->.
                 apply in_or_app. right. left. reflexivity.
              ** right. exists j. split; [lia|exact Hdraw].
    + cbn [sampling]. loop_test; [lia|]. eexists. reflexivity.
Qed.


(** X10. The converse of the endless loop: when the question sets with a key
    above 3 have at least as many distinct questions as asked for, and the
    random draws of the iterations allowed reach every one of them,
    [generate_test] returns a test. *)
Theorem generate_test_returns (self : ObjectiveTest) (num_questions : Z)
    (question_sets : list question_set) (rng : nat -> Z) (fuel : nat) :
  get_question_sets self = Ret question_sets ->
  (num_questions
   <= Z.of_nat
        (length (distinct_questions (question_answers_of question_sets))))%Z ->
  (forall i,
      i < length (question_answers_of question_sets) ->
      exists j,
        j < fuel /\
        Z.to_nat
          (rng j mod Z.of_nat (length (question_answers_of question_sets)))
        = i) ->
  exists test, generate_test self num_questions rng fuel = Done test.
Proof.
  intros Hsets Henough Hcover. unfold generate_test. rewrite Hsets.
  apply sampling_returns; [exact Henough|apply drawn_from_nil|].
  intros i r Hi. right.
  destruct (Hcover i) as (j & Hj & Hdraw).
  - apply nth_error_Some. rewrite Hi. discriminate.
  - exists j. split; [lia|exact Hdraw].
Qed.


End Returning.

(** ** More runs on the stand-ins *)

Section MoreRuns.

Import Stub.



Lemma get_question_sets_in_order_witness :
  summary courses
  = Some (lit
      "compiler design lectures cover parsing theory. database systems store records safely.") /\
  sent_tokenize (lit
      "compiler design lectures cover parsing theory. database systems store records safely.")
  = Some [compiler_sentence; lit "database systems store records safely."] /\
  Forall2 (fun s o => identify_potential_questions s = Ret o)
    [compiler_sentence; lit "database systems store records safely."]
    [Some compiler_question; Some database_question] /\
  get_question_sets courses
  = Ret (records_of [Some compiler_question; Some database_question]) /\
  length (records_of [Some compiler_question; Some database_question])
  <= length [compiler_sentence; lit "database systems store records safely."].
Proof.
  assert (Hsum : summary courses
                 = Some (lit
      "compiler design lectures cover parsing theory. database systems store records safely."))
    by reflexivity.
  assert (Hsplit : sent_tokenize (lit
      "compiler design lectures cover parsing theory. database systems store records safely.")
                   = Some [compiler_sentence;
                           lit "database systems store records safely."])
    by (vm_compute; reflexivity).
  assert (Hall : Forall2 (fun s o => identify_potential_questions s = Ret o)
                   [compiler_sentence;
                    lit "database systems store records safely."]
                   [Some compiler_question; Some database_question]).
  { repeat constructor; vm_compute; reflexivity. }
  destruct (get_question_sets_in_order courses _ _ Hsum Hsplit) as [Hok _].
  destruct (Hok _ Hall) as (Hget & Hlen & _).
  split; [exact Hsum|]. split; [exact Hsplit|]. split; [exact Hall|].
  split; [exact Hget|exact Hlen].
Defined.

Lemma question_set_shape_witness :
  identify_potential_questions compiler_sentence
  = Ret (Some compiler_question) /\
  exists replace_nouns,
    handle_nouns (pos_tag (chars compiler_sentence))
      (noun_phrases_of compiler_sentence) = Ret replace_nouns /\
    (length replace_nouns = 1 \/ length replace_nouns = 2) /\
    Answer compiler_question = join (lit " ") replace_nouns /\
    (0 <= Key compiler_question <= 99)%Z /\
    Forall (fun w => (Key compiler_question <= len w)%Z) replace_nouns.
Proof.
  assert (Hrun : identify_potential_questions compiler_sentence
                 = Ret (Some compiler_question)) by (vm_compute; reflexivity).
  split; [exact Hrun|].
  exact (question_set_shape compiler_sentence compiler_question Hrun).
Defined.

Lemma question_set_distractors_witness :
  identify_potential_questions compiler_sentence
  = Ret (Some compiler_question) /\
  length (Similar compiler_question) <= 8 /\
  ~ In (Answer compiler_question) (Similar compiler_question) /\
  (forall w1 w2,
      handle_nouns (pos_tag (chars compiler_sentence))
        (noun_phrases_of compiler_sentence) = Ret [w1; w2] ->
      Similar compiler_question = []).
Proof.
  assert (Hrun : identify_potential_questions compiler_sentence
                 = Ret (Some compiler_question)) by (vm_compute; reflexivity).
  split; [exact Hrun|].
  exact (question_set_distractors compiler_sentence compiler_question Hrun).
Defined.

Lemma first_character_blanked_witness :
  adverb_first = "Q"%char :: lit "uickly the dog ran home" /\
  pos_tag (chars adverb_first)
  = (["Q"%char], lit "NN") :: tl (pos_tag (chars adverb_first)) /\
  Forall (passed ["Q"%char]) (noun_phrases_of adverb_first) /\
  identify_potential_questions adverb_first
  = Ret (Some adverb_first_question) /\
  (Answer adverb_first_question = ["Q"%char] /\
   Key adverb_first_question = 1%Z /\
   Question adverb_first_question = blank ++ lit "uickly the dog ran home" /\
   question_answers_of [adverb_first_question] = []).
Proof.
  assert (Hs : adverb_first = "Q"%char :: lit "uickly the dog ran home")
    by reflexivity.
  assert (Ht : pos_tag (chars adverb_first)
               = (["Q"%char], lit "NN") :: tl (pos_tag (chars adverb_first)))
    by (vm_compute; reflexivity).
  assert (Hp : Forall (passed ["Q"%char]) (noun_phrases_of adverb_first)).
  { replace (noun_phrases_of adverb_first) with (@nil str)
      by (vm_compute; reflexivity).
    constructor. }
  assert (Hrun : identify_potential_questions adverb_first
                 = Ret (Some adverb_first_question))
    by (vm_compute; reflexivity).
  split; [exact Hs|]. split; [exact Ht|]. split; [exact Hp|].
  split; [exact Hrun|].
  exact (first_character_blanked adverb_first _ "Q"%char (lit "NN") _
           adverb_first_question Hs Ht Hp Hrun).
Defined.

Lemma chunk_last_two_tokens_witness :
  Forall word_like
    (map fst [(lit "compiler", lit "NN"); (lit "design", lit "NN");
              (lit "notes", lit "NN")]) /\
  [(lit "compiler", lit "NN"); (lit "design", lit "NN");
   (lit "notes", lit "NN")] <> [] /\
  leading_apostrophe
    (chunk_text [(lit "compiler", lit "NN"); (lit "design", lit "NN");
                 (lit "notes", lit "NN")]) = false /\
  contains (lit "c")
    (chunk_text [(lit "compiler", lit "NN"); (lit "design", lit "NN");
                 (lit "notes", lit "NN")]) = true /\
  chunk_text [(lit "compiler", lit "NN"); (lit "design", lit "NN");
              (lit "notes", lit "NN")]
  = join (lit " ") [lit "compiler"; lit "design"; lit "notes"] /\
  phrase_step (lit "c")
    (chunk_text [(lit "compiler", lit "NN"); (lit "design", lit "NN");
                 (lit "notes", lit "NN")]) []
  = Ret (Break [lit "design"; lit "notes"]).
Proof.
  assert (Hws : Forall word_like
                  (map fst [(lit "compiler", lit "NN"); (lit "design", lit "NN");
                            (lit "notes", lit "NN")])).
  { repeat constructor; try discriminate; vm_compute; reflexivity. }
  assert (Hne : [(lit "compiler", lit "NN"); (lit "design", lit "NN");
                 (lit "notes", lit "NN")] <> []) by discriminate.
  assert (Hap : leading_apostrophe
                  (chunk_text [(lit "compiler", lit "NN");
                               (lit "design", lit "NN");
                               (lit "notes", lit "NN")]) = false)
    by (vm_compute; reflexivity).
  assert (Hin : contains (lit "c")
                  (chunk_text [(lit "compiler", lit "NN");
                               (lit "design", lit "NN");
                               (lit "notes", lit "NN")]) = true)
    by (vm_compute; reflexivity).
  split; [exact Hws|]. split; [exact Hne|]. split; [exact Hap|].
  split; [exact Hin|].
  exact (chunk_last_two_tokens (lit "c") _ [] Hws Hne Hap Hin).
Defined.

Lemma answer_options_first_eight_witness :
  synsets (lit "dog") (lit "n") = [lit "dog"] /\
  hypernyms (lit "dog") = [lit "canine"] /\
  Forall2 (@first_name hierarchy) (@hyponyms hierarchy (lit "canine"))
    [lit "bitch"; lit "dog"; lit "fox"; lit "hyena"; lit "jackal";
     lit "wild_dog"; lit "wolf"; lit "coyote"; lit "dingo"; lit "dhole"] /\
  answer_options (lit "dog")
  = Ret (firstn 8
           (filter (fun w => negb (str_eqb w (lit "dog")))
              (map (map underscore_to_space)
                 [lit "bitch"; lit "dog"; lit "fox"; lit "hyena";
                  lit "jackal"; lit "wild_dog"; lit "wolf"; lit "coyote";
                  lit "dingo"; lit "dhole"]))).
Proof.
  assert (Hsyn : synsets (lit "dog") (lit "n") = [lit "dog"])
    by (vm_compute; reflexivity).
  assert (Hhyp : hypernyms (lit "dog") = [lit "canine"])
    by (vm_compute; reflexivity).
  assert (Hnames : Forall2 (@first_name hierarchy) (@hyponyms hierarchy (lit "canine"))
                     [lit "bitch"; lit "dog"; lit "fox"; lit "hyena";
                      lit "jackal"; lit "wild_dog"; lit "wolf"; lit "coyote";
                      lit "dingo"; lit "dhole"]).
  { replace (@hyponyms hierarchy (lit "canine"))
      with [lit "bitch"; lit "dog"; lit "fox"; lit "hyena"; lit "jackal";
            lit "wild_dog"; lit "wolf"; lit "coyote"; lit "dingo";
            lit "dhole"] by (vm_compute; reflexivity).
    repeat constructor; eexists _, []; split; reflexivity. }
  split; [exact Hsyn|]. split; [exact Hhyp|]. split; [exact Hnames|].
  exact (answer_options_first_eight (lit "dog") _ _ _ _ _ Hsyn Hhyp Hnames).
Defined.

Lemma generate_test_returns_witness :
  get_question_sets courses = Ret [compiler_question; database_question] /\
  (2 <= Z.of_nat
          (length
             (distinct_questions
                (question_answers_of
                   [compiler_question; database_question]))))%Z /\
  (forall i,
      i < length (question_answers_of [compiler_question; database_question]) ->
      exists j,
        j < 2 /\
        Z.to_nat
          (counting j
           mod Z.of_nat
                 (length
                    (question_answers_of
                       [compiler_question; database_question])))
        = i) /\
  exists test, generate_test courses 2 counting 2 = Done test.
Proof.
  assert (Hsets : get_question_sets courses
                  = Ret [compiler_question; database_question])
    by (vm_compute; reflexivity).
  assert (Henough : (2 <= Z.of_nat
                           (length
                              (distinct_questions
                                 (question_answers_of
                                    [compiler_question;
                                     database_question]))))%Z)
    by (vm_compute; discriminate).
  assert (Hcover : forall i,
             i < length (question_answers_of
                           [compiler_question; database_question]) ->
             exists j,
               j < 2 /\
               Z.to_nat
                 (counting j
                  mod Z.of_nat
                        (length
                           (question_answers_of
                              [compiler_question; database_question])))
               = i).
  { replace (question_answers_of [compiler_question; database_question])
      with [compiler_question; database_question]
      by (vm_compute; reflexivity).
    intros i Hi. cbn [length] in Hi. exists i. split; [exact Hi|].
    destruct i as [|[|i]]; [reflexivity|reflexivity|lia]. }
  split; [exact Hsets|]. split; [exact Henough|]. split; [exact Hcover|].
  exact (generate_test_returns courses 2 _ counting 2 Hsets Henough Hcover).
Defined.


End MoreRuns.
